(** * fotomat: the image transformation pipeline ([imager.Result])

    A shallow embedding of [imager/result.go] (the [Result] type with
    [NewResult], [applyColorProfile], [Resize], [Crop], [Get], [compress]
    and [Close]) over an explicit model of the ImageMagick wand, and of the
    request grammar exercised by [image-handler_test.go]. *)

From Stdlib Require Import ZArith List String Ascii Bool Lia.
From Stdlib Require Import DecimalString.
From Stdlib Require Import Floats.PrimFloat Floats.SpecFloat Floats.FloatOps.
Import ListNotations.

#[local] Set Warnings "-inexact-float".


Local Open Scope string_scope.
Local Open Scope list_scope.
Local Open Scope Z_scope.

(** ** Go machine integers

    [uint] and [int] are 64 bits wide on the platforms fotomat runs on.
    Values are carried as [Z]; every arithmetic operation writes out its
    wrap-around. *)
Module Go.

Definition uint_modulus : Z := 2 ^ 64.
Definition int_min : Z := - 2 ^ 63.

(** Reduction of a mathematical integer to a [uint]. *)
Definition wrap_uint (z : Z) : Z := z mod uint_modulus.

(** Reduction of a mathematical integer to a two's complement [int]. *)
Definition wrap_int (z : Z) : Z := (z - int_min) mod uint_modulus + int_min.

Definition uint_sub (a b : Z) : Z := wrap_uint (a - b).
Definition uint_div (a b : Z) : Z := a / b.

(** The conversion [int(u)] of a [uint]. *)
Definition int_of_uint (u : Z) : Z := wrap_int u.

Definition int_add (a b : Z) : Z := wrap_int (a + b).
Definition int_sub (a b : Z) : Z := wrap_int (a - b).

(** Go's [/] on [int] truncates toward zero. *)
Definition int_div (a b : Z) : Z := wrap_int (Z.quot a b).

(** The conversion [float64(u)] of a [uint]: round to nearest, ties to even. *)
Definition float64_of_uint (u : Z) : float :=
  SF2Prim (binary_normalize prec emax u 0 false).

(** A value that fits a [uint]. *)
Definition is_uint (z : Z) : Prop := 0 <= z < uint_modulus.

(** A [uint] that [int(...)] leaves unchanged, with room for the [+ 1] of
    the centring offset. *)
Definition fits_int (z : Z) : Prop := 0 <= z < 2 ^ 63 - 1.

(** [fmt.Sprintf("%d", u)] for a [uint]. *)
Definition sprint_uint (u : Z) : string :=
  NilZero.string_of_uint (N.to_uint (Z.to_N u)).

End Go.

(** ** The ImageMagick wand *)
Module Imagick.

Inductive ColorspaceType :=
| COLORSPACE_UNDEFINED
| COLORSPACE_RGB
| COLORSPACE_GRAY
| COLORSPACE_CMYK
| COLORSPACE_SRGB.

Definition ColorspaceType_eqb (a b : ColorspaceType) : bool :=
  match a, b with
  | COLORSPACE_UNDEFINED, COLORSPACE_UNDEFINED
  | COLORSPACE_RGB, COLORSPACE_RGB
  | COLORSPACE_GRAY, COLORSPACE_GRAY
  | COLORSPACE_CMYK, COLORSPACE_CMYK
  | COLORSPACE_SRGB, COLORSPACE_SRGB => true
  | _, _ => false
  end.

Inductive FilterType := FILTER_TRIANGLE | FILTER_LANCZOS.

Inductive AlphaChannelType := ALPHA_CHANNEL_BACKGROUND.

Inductive InterlaceType := INTERLACE_LINE.

(** A Go [error] value returned by the binding. *)
Inductive error := MagickError (message : string).

(** The methods of [*imagick.MagickWand] that [result.go] invokes, with
    their arguments. *)
Inductive Call :=
| SetOption (key value : string)
| ReadImageBlob (blob : list Byte.byte)
| ResetIterator
| ResetImagePage (page : string)
| GetImageProfile (name : string)
| ProfileImage (name profile : string)
| SetColorspace (c : ColorspaceType)
| GetImageColorspace
| TransformImageColorspace (c : ColorspaceType)
| GetImageWidth
| GetImageHeight
| GaussianBlurImage (radius sigma : float)
| ResizeImage (cols rows : Z) (filter : FilterType) (blur : float)
| CropImage (width height x y : Z)
| UnsharpMaskImage (radius sigma amount threshold : float)
| SetImageDepth (depth : Z)
| NormalizeImage
| StripImage
| GetImageAlphaChannel
| SetImageAlphaChannel (a : AlphaChannelType)
| SetImageFormat (format : string)
| SetImageCompressionQuality (quality : Z)
| SetInterlaceScheme (i : InterlaceType)
| GetImageBlob
| Destroy.

(** A wand is represented by the calls made on it so far, oldest first. *)
Definition MagickWand := list Call.

(** [imagick.NewMagickWand()]. *)
Definition NewMagickWand : MagickWand := [].

(** The library itself is opaque: an [Engine] fixes, for each call and the
    history it is made in, what the library answers. *)
Record Engine := {
  failure : MagickWand -> Call -> option error;
  imageProfile : MagickWand -> string -> string;
  imageColorspace : MagickWand -> ColorspaceType;
  imageWidth : MagickWand -> Z;
  imageHeight : MagickWand -> Z;
  imageAlphaChannel : MagickWand -> bool;
  imageBlob : MagickWand -> list Byte.byte
}.

Definition is_Destroy (c : Call) : bool :=
  match c with Destroy => true | _ => false end.

(** The three colour paths of the constructor as the wand sees them:
    marking ([SetColorspace]), profile application ([ProfileImage]) and
    direct transformation ([TransformImageColorspace]). *)
Definition is_color_path (c : Call) : bool :=
  match c with
  | SetColorspace _ | ProfileImage _ _ | TransformImageColorspace _ => true
  | _ => false
  end.

Definition color_paths (w : MagickWand) : list Call := filter is_color_path w.

Definition is_blur (c : Call) : bool :=
  match c with GaussianBlurImage _ _ => true | _ => false end.

Definition is_unsharp (c : Call) : bool :=
  match c with UnsharpMaskImage _ _ _ _ => true | _ => false end.

(** The sharpening passes applied on the wand. *)
Definition unsharp_calls (w : MagickWand) : list Call := filter is_unsharp w.

(** Whether a blur was applied on the wand. *)
Definition blurred (w : MagickWand) : bool := existsb is_blur w.

(** Number of times the wand has been released. *)
Definition releases (w : MagickWand) : nat :=
  List.length (List.filter is_Destroy w).

End Imagick.

(** ** Orientation

    [orientation.go] lies outside the verified files; the type and its
    [Dimensions] method are reconstructed, [Crop] and [Fix] stay parameters
    of the pipeline below. *)
Module Orient.

(** Modelled from the spec: the [Orientation] enumeration of
    [orientation.go], "enum {Normal, FlipHorizontal, Rotate180, FlipVertical,
    Transpose, Rotate90, Transverse, Rotate270}". *)
Inductive Orientation :=
| Normal
| FlipHorizontal
| Rotate180
| FlipVertical
| Transpose
| Rotate90
| Transverse
| Rotate270.

(** Modelled from the spec: [Orientation.Dimensions] of [orientation.go],
    "returns (h,w) for the four orientations that imply a 90/270 degree
    rotation, else (w,h) unchanged". *)
Definition Dimensions (o : Orientation) (width height : Z) : Z * Z :=
  match o with
  | Transpose | Rotate90 | Transverse | Rotate270 => (height, width)
  | _ => (width, height)
  end.

(** The signature of [Orientation.Crop(w, h, x, y, containerW, containerH)],
    which yields the physical box [(ow, oh, ox, oy)]. *)
Definition CropFn := Orientation -> Z -> Z -> Z -> Z -> Z -> Z -> Z * Z * Z * Z.

(** The signature of [Orientation.Fix(wand)]: it drives the wand and may
    fail. *)
Definition FixFn :=
  Orientation -> Imagick.MagickWand -> option Imagick.error * Imagick.MagickWand.

(** Modelled from the spec: on an upright image the logical crop box is the
    physical one ("transforms a logical (upright-space) crop box into the
    physical pixel-space crop box consistent with the orientation").  Used
    to instantiate the [Crop] parameter on concrete runs. *)
Definition Crop_upright : CropFn :=
  fun _ w h x y _ _ => (w, h, x, y).

(** Modelled from the spec: [Fix] is "idempotent if already Normal"; on an
    upright image it issues no call.  Used on concrete runs only. *)
Definition Fix_upright : FixFn :=
  fun _ w => (None, w).

End Orient.

(** ** The pipeline state and its operations ([imager/result.go]) *)
Module Imager.
Import Go Imagick Orient.

(** The fields of [Imager] (declared in [imager.go]) that [result.go]
    reads.  [Orientation] is dereferenced at once by [NewResult], so the
    pointee is stored. *)
Record Imager := {
  blob : list Byte.byte;
  img_Width : Z;
  img_Height : Z;
  img_Orientation : Orientation;
  BlurFactor : float;
  Sharpen : bool;
  AutoContrast : bool;
  OutputFormat : string;
  JpegQuality : Z
}.

(** The address of the one wand a [Result] owns. *)
Inductive WandPtr := wand_ptr.

(** [type Result struct].  [None] stands for Go's [nil]. *)
Record Result := {
  wand : option WandPtr;
  img : option Imager;
  Width : Z;
  Height : Z;
  Orientation : Orient.Orientation;
  shrank : bool
}.

(** The zero value [Result{}]. *)
Definition zero_Result : Result :=
  {| wand := None; img := None; Width := 0; Height := 0;
     Orientation := Normal; shrank := false |}.

Definition set_Width (r : Result) (v : Z) : Result :=
  {| wand := wand r; img := img r; Width := v; Height := Height r;
     Orientation := Orientation r; shrank := shrank r |}.

Definition set_Height (r : Result) (v : Z) : Result :=
  {| wand := wand r; img := img r; Width := Width r; Height := v;
     Orientation := Orientation r; shrank := shrank r |}.

Definition set_shrank (r : Result) (v : bool) : Result :=
  {| wand := wand r; img := img r; Width := Width r; Height := Height r;
     Orientation := Orientation r; shrank := v |}.

(** *** Computations over the wand

    A computation reads and extends the wand that lives behind
    [result.wand]; [None] as a value is a run-time panic (a [nil]
    dereference). *)
Definition M (A : Type) : Type := MagickWand -> option A * MagickWand.

Definition ret {A} (a : A) : M A := fun w => (Some a, w).

Definition bind {A B} (m : M A) (f : A -> M B) : M B :=
  fun w => match m w with
           | (Some a, w') => f a w'
           | (None, w') => (None, w')
           end.

Definition panic {A} : M A := fun w => (None, w).

Notation "x <- m ;; k" := (bind m (fun x => k))
  (at level 61, m at next level, right associativity).
Notation "m ;;; k" := (bind m (fun _ => k))
  (at level 61, right associativity).

(** [if err := m; err != nil { h err } ; k]. *)
Definition iferr {B} (m : M (option error)) (h : error -> M B) (k : M B) : M B :=
  err <- m ;; match err with Some e => h e | None => k end.

Notation "'check' m 'orelse' e 'in' h ;; k" := (iferr m (fun e => h) k)
  (at level 61, m at next level, e name, right associativity).

Section Pipeline.

Variable E : Engine.

(** The ICC profile constant of [profiles.go]. *)
Variable sRGB_IEC61966_2_1_black_scaled : string.

Variable Orientation_Crop : CropFn.
Variable Orientation_Fix : FixFn.

(** A method of [result.wand] that returns an [error]. *)
Definition invoke (r : Result) (c : Call) : M (option error) :=
  match wand r with
  | Some _ => fun w => (Some (failure E w c), w ++ [c])
  | None => panic
  end.

(** A method of [result.wand] that returns nothing. *)
Definition invoke_ (r : Result) (c : Call) : M unit :=
  match wand r with
  | Some _ => fun w => (Some tt, w ++ [c])
  | None => panic
  end.

(** A getter of [result.wand]. *)
Definition query {A} (r : Result) (c : Call) (answer : MagickWand -> A) : M A :=
  match wand r with
  | Some _ => fun w => (Some (answer w), w ++ [c])
  | None => panic
  end.

(** [result.img], dereferenced. *)
Definition the_img (r : Result) : M Imager :=
  match img r with
  | Some i => ret i
  | None => panic
  end.

(** [func (result *Result) Close()]. *)
Definition Close (r : Result) : M Result :=
  invoke_ r Destroy ;;;
  ret zero_Result.

(** [func (result *Result) applyColorProfile() bool]. *)
Definition applyColorProfile (r : Result) : M bool :=
  icc <- query r (GetImageProfile "icc") (fun w => imageProfile E w "icc") ;;
  if String.eqb icc "" then ret false
  else if String.eqb icc sRGB_IEC61966_2_1_black_scaled then ret true
  else
    err <- invoke r (ProfileImage "icc" sRGB_IEC61966_2_1_black_scaled) ;;
    ret (match err with None => true | Some _ => false end).

(** The colour normalisation of [NewResult] (its lines 56 to 68); the
    error, if any, is the one [NewResult] closes and returns on. *)
Definition normalizeColor (r : Result) : M (option error) :=
  applied <- applyColorProfile r ;;
  if applied then
    invoke r (SetColorspace COLORSPACE_SRGB)
  else
    cs <- query r GetImageColorspace (imageColorspace E) ;;
    if negb (ColorspaceType_eqb cs COLORSPACE_SRGB) then
      invoke r (TransformImageColorspace COLORSPACE_SRGB)
    else ret None.

(** The gate of the pre-resize blur (line 78 of [NewResult]). *)
Definition blur_gate (i : Imager) (width height : Z) : bool :=
  (PrimFloat.ltb 0%float (BlurFactor i)) && (0 <? width) && (width <? img_Width i)
  && (0 <? height) && (height <? img_Height i).

(** [func (img *Imager) NewResult(width, height uint)], which returns a
    [Result] pointer and an [error]: [inl result] stands for
    [(result, nil)] and [inr err] for [(nil, err)].  The constructor
    allocates its own wand, so the wand it is run on is replaced by a new
    one. *)
Definition NewResult (i : Imager) (width height : Z) : M (Result + error) :=
  fun _ =>
  (let result := {| wand := Some wand_ptr; img := Some i; Width := 0; Height := 0;
                    Orientation := img_Orientation i; shrank := false |} in
   let '(width, height) := Dimensions (Orientation result) width height in
   let closing (e : error) : M (Result + error) := Close result ;;; ret (inr e) in
   check (if (0 <? width) && (0 <? height)
          then invoke result (SetOption "jpeg:size" (sprint_uint width ++ "x" ++ sprint_uint height)%string)
          else ret None) orelse e in closing e ;;
   check invoke result (ReadImageBlob (blob i)) orelse e in closing e ;;
   invoke_ result ResetIterator ;;;
   check invoke result (ResetImagePage "") orelse e in closing e ;;
   check normalizeColor result orelse e in closing e ;;
   gw <- query result GetImageWidth (imageWidth E) ;;
   gh <- query result GetImageHeight (imageHeight E) ;;
   let '(rw, rh) := Dimensions (Orientation result) gw gh in
   let result := set_Height (set_Width result rw) rh in
   let result := if (Width result <? img_Width i) && (Height result <? img_Height i)
                 then set_shrank result true else result in
   if blur_gate i width height then
     let radius := PrimFloat.div (float64_of_uint (Width result)) (float64_of_uint width) in
     check invoke result (GaussianBlurImage 0%float (PrimFloat.mul (BlurFactor i) radius))
       orelse e in ret (inr e) ;;
     ret (inl result)
   else ret (inl result))
  NewMagickWand.

(** The filter choice of [Resize] (its lines 106 to 111): the flag
    [shrinking] and the filter are set together. *)
Definition shrinking_by (r : Result) (width height : Z) : bool :=
  (width <? uint_sub (Width r) (uint_div (Width r) 40))
  && (height <? uint_sub (Height r) (uint_div (Height r) 40)).

Definition resize_filter (r : Result) (width height : Z) : FilterType :=
  if shrinking_by r width height then FILTER_LANCZOS else FILTER_TRIANGLE.

(** [func (result *Result) Resize(width, height uint) error].  The state
    after the call is returned next to the error. *)
Definition Resize (r : Result) (width height : Z) : M (Result * option error) :=
  let filter := resize_filter r width height in
  let shrinking := shrinking_by r width height in
  let '(ow, oh) := Dimensions (Orientation r) width height in
  check invoke r (ResizeImage ow oh filter 1%float) orelse e in ret (r, Some e) ;;
  let r := set_Width r width in
  let r := set_Height r height in
  let r := set_shrank r shrinking in
  ret (r, None).

(** The centring offset [(int(current) - int(target) + 1) / 2] of [Crop]. *)
Definition center (current target : Z) : Z :=
  int_div (int_add (int_sub (int_of_uint current) (int_of_uint target)) 1) 2.

(** [func (result *Result) Crop(width, height uint) error]. *)
Definition Crop (r : Result) (width height : Z) : M (Result * option error) :=
  let x := center (Width r) width in
  let y := center (Height r) height in
  let '(ow, oh, ox, oy) :=
    Orientation_Crop (Orientation r) width height x y (Width r) (Height r) in
  check invoke r (CropImage ow oh ox oy) orelse e in ret (r, Some e) ;;
  let r := set_Width r width in
  let r := set_Height r height in
  ret (r, None).

(** [func (result *Result) compress(format, quality, interlace)]. *)
Definition compress (r : Result) (format : string) (quality : Z)
    (interlace : InterlaceType) : M (list Byte.byte + error) :=
  check invoke r (SetImageFormat format) orelse e in ret (inr e) ;;
  check invoke r (SetImageCompressionQuality quality) orelse e in ret (inr e) ;;
  check invoke r (SetInterlaceScheme interlace) orelse e in ret (inr e) ;;
  b <- query r GetImageBlob (imageBlob E) ;;
  ret (inl b).

(** [result.shrank && result.img.Sharpen]: the right operand is only
    evaluated, and [result.img] only dereferenced, when the left one holds. *)
Definition wants_sharpen (r : Result) : M bool :=
  if shrank r then i <- the_img r ;; ret (Sharpen i) else ret false.

(** [func (result *Result) Get() ([]byte, error)]. *)
Definition Get (r : Result) : M (Result * (list Byte.byte + error)) :=
  sharpen <- wants_sharpen r ;;
  check (if sharpen
         then invoke r (UnsharpMaskImage 0%float 0.8%float 0.6%float 0.05%float)
         else ret None) orelse e in ret (r, inr e) ;;
  check invoke r (SetImageDepth 8) orelse e in ret (r, inr e) ;;
  check (match wand r with
         | Some _ => fun w => let '(err, w') := Orientation_Fix (Orientation r) w in (Some err, w')
         | None => panic
         end) orelse e in ret (r, inr e) ;;
  i <- the_img r ;;
  check (if AutoContrast i then invoke r NormalizeImage else ret None)
    orelse e in ret (r, inr e) ;;
  check invoke r StripImage orelse e in (r' <- Close r ;; ret (r', inr e)) ;;
  hasAlpha <- query r GetImageAlphaChannel (imageAlphaChannel E) ;;
  check (if hasAlpha then invoke r (SetImageAlphaChannel ALPHA_CHANNEL_BACKGROUND) else ret None)
    orelse e in ret (r, inr e) ;;
  let quality := if String.eqb (OutputFormat i) "JPEG" then JpegQuality i else 95 in
  out <- compress r (OutputFormat i) quality INTERLACE_LINE ;;
  ret (r, out).

End Pipeline.

(** The engine calls whose error [NewResult] checks and hands back. *)
Definition checked_by_NewResult (c : Call) : bool :=
  match c with
  | SetOption _ _ | ReadImageBlob _ | ResetImagePage _
  | SetColorspace _ | TransformImageColorspace _ | GaussianBlurImage _ _ => true
  | _ => false
  end.

(** The quality [Get] encodes with: the configured one for JPEG output,
    95 for every other format. *)
Definition output_quality (i : Imager) : Z :=
  if String.eqb (OutputFormat i) "JPEG" then JpegQuality i else 95.

(** *** Running a plan

    Modelled from the spec: the caller of [Resize] and [Crop] (the handler
    that walks the plan) lies outside the verified files.  "Apply each
    Plan operation in order"; "any operation failure" ends the run. *)
Inductive Step :=
| DoResize (width height : Z)
| DoCrop (width height : Z).

Section Plan.

Variable E : Engine.
Variable Orientation_Crop : CropFn.

(** The engine call that [Resize] issues. *)
Definition Resize_call (r : Result) (width height : Z) : Call :=
  let '(ow, oh) := Dimensions (Orientation r) width height in
  ResizeImage ow oh (resize_filter r width height) 1%float.

(** The engine call that [Crop] issues. *)
Definition Crop_call (r : Result) (width height : Z) : Call :=
  let '(ow, oh, ox, oy) :=
    Orientation_Crop (Orientation r) width height
      (center (Width r) width) (center (Height r) height) (Width r) (Height r) in
  CropImage ow oh ox oy.

(** The state a successful [Resize] leaves. *)
Definition resized (r : Result) (width height : Z) : Result :=
  {| wand := wand r; img := img r; Width := width; Height := height;
     Orientation := Orientation r; shrank := shrinking_by r width height |}.

(** The state a successful [Crop] leaves. *)
Definition cropped (r : Result) (width height : Z) : Result :=
  {| wand := wand r; img := img r; Width := width; Height := height;
     Orientation := Orientation r; shrank := shrank r |}.

Definition is_DoCrop (s : Step) : bool :=
  match s with DoCrop _ _ => true | DoResize _ _ => false end.

Definition apply_step (s : Step) (r : Result) : M (Result * option error) :=
  match s with
  | DoResize w h => Resize E r w h
  | DoCrop w h => Crop E Orientation_Crop r w h
  end.

Fixpoint apply_steps (steps : list Step) (r : Result) : M (Result * option error) :=
  match steps with
  | [] => ret (r, None)
  | s :: rest =>
      out <- apply_step s r ;;
      match out with
      | (r', Some e) => ret (r', Some e)
      | (r', None) => apply_steps rest r'
      end
  end.

End Plan.

End Imager.

(** ** The request grammar ([image-handler.go])

    The handler itself lies outside the verified files; its tests
    ([image-handler_test.go]) are.  The parser is reconstructed from the
    specification, and the order of the preview flag from the tests. *)
Module Handler.

Inductive Operation :=
| Scale (width height : Z)
| Crop (width height : Z)
| PreviewScale (width height : Z).

Inductive Outcome (A : Type) :=
| Success (a : A)
| NotFound
| UnsupportedMedia
| TooLarge
| BadRequest
| Internal.

Arguments Success {A} a.
Arguments NotFound {A}.
Arguments UnsupportedMedia {A}.
Arguments TooLarge {A}.
Arguments BadRequest {A}.
Arguments Internal {A}.

Definition is_BadRequest {A} (o : Outcome A) : bool :=
  match o with BadRequest => true | _ => false end.

(** The pieces of [s] between occurrences of [sep]. *)
Fixpoint split_on (sep : ascii) (s : string) : list string :=
  match s with
  | EmptyString => [EmptyString]
  | String c rest =>
      if Ascii.eqb c sep then EmptyString :: split_on sep rest
      else match split_on sep rest with
           | seg :: segs => String c seg :: segs
           | [] => [String c EmptyString]
           end
  end.

Definition nonempty (s : string) : bool :=
  match s with EmptyString => false | _ => true end.

(** Modelled from the spec: "Splits on [=]; each non-empty segment ...". *)
Definition segments (suffix : string) : list string :=
  filter nonempty (split_on "="%char suffix).

Definition digit_value (c : ascii) : option Z :=
  let n := Z.of_nat (nat_of_ascii c) in
  if (48 <=? n) && (n <=? 57) then Some (n - 48) else None.

Fixpoint parse_digits (acc : Z) (s : string) : option Z :=
  match s with
  | EmptyString => Some acc
  | String c rest =>
      match digit_value c with
      | Some d => parse_digits (10 * acc + d) rest
      | None => None
      end
  end.

(** Modelled from the spec: "[W],[H] are decimal integers"; anything
    "non-numeric" has no value. *)
Definition parse_decimal (s : string) : option Z :=
  match s with
  | EmptyString => None
  | _ => parse_digits 0 s
  end.

Fixpoint strip_prefix (p s : string) : option string :=
  match p, s with
  | EmptyString, _ => Some s
  | String a p', String b s' => if Ascii.eqb a b then strip_prefix p' s' else None
  | String _ _, EmptyString => None
  end.

Inductive Kind := KScale | KCrop | KPreviewScale.

(** Modelled from the spec: the operation prefixes of the handler.  The
    spec writes the preview prefix [sp]; the handler's tests ("Require
    preview flag to be a prefix", [=ps100x100] accepted, [=sp16x16]
    refused) fix it as [ps], and the tests are followed. *)
Definition lex_operation (seg : string) : option (Kind * string) :=
  match strip_prefix "ps" seg with
  | Some rest => Some (KPreviewScale, rest)
  | None =>
    match strip_prefix "s" seg with
    | Some rest => Some (KScale, rest)
    | None =>
      match strip_prefix "c" seg with
      | Some rest => Some (KCrop, rest)
      | None => None
      end
    end
  end.

(** Modelled from the spec: a segment is "one recognized operation prefix
    followed by [WxH]". *)
Definition lex_segment (seg : string) : option (Kind * Z * Z) :=
  match lex_operation seg with
  | Some (k, rest) =>
      match split_on "x"%char rest with
      | [ws; hs] =>
          match parse_decimal ws, parse_decimal hs with
          | Some w, Some h => Some (k, w, h)
          | _, _ => None
          end
      | _ => None
      end
  | None => None
  end.

(** Modelled from the spec: "Each dimension must parse as a positive
    integer in the closed range [16, 2048]". *)
Definition min_dimension : Z := 16.
Definition max_dimension : Z := 2048.

Definition dimension_ok (n : Z) : bool :=
  (min_dimension <=? n) && (n <=? max_dimension).

Definition operation_of (k : Kind) (w h : Z) : Operation :=
  match k with
  | KScale => Scale w h
  | KCrop => Crop w h
  | KPreviewScale => PreviewScale w h
  end.

Definition parse_operation (seg : string) : option Operation :=
  match lex_segment seg with
  | Some (k, w, h) =>
      if dimension_ok w && dimension_ok h then Some (operation_of k w h) else None
  | None => None
  end.

Fixpoint parse_operations (segs : list string) : option (list Operation) :=
  match segs with
  | [] => Some []
  | seg :: rest =>
      match parse_operation seg with
      | Some op =>
          match parse_operations rest with
          | Some ops => Some (op :: ops)
          | None => None
          end
      | None => None
      end
  end.

Definition scale_family (op : Operation) : bool :=
  match op with
  | Scale _ _ | PreviewScale _ _ => true
  | Crop _ _ => false
  end.

(** Modelled from the spec: the plan parser of section 4.1.  Any bad
    segment, a second scale-family operation, or an empty plan is a
    [BadRequest]. *)
Definition parsePlan (suffix : string) : Outcome (list Operation) :=
  match parse_operations (segments suffix) with
  | None => BadRequest
  | Some [] => BadRequest
  | Some plan =>
      if (List.length (filter scale_family plan) <=? 1)%nat
      then Success plan else BadRequest
  end.

(** The part of a request path from its first [=] on. *)
Fixpoint suffix_of (path : string) : string :=
  match path with
  | EmptyString => EmptyString
  | String c rest => if Ascii.eqb c "="%char then path else suffix_of rest
  end.

(** A string without the character [sep]. *)
Fixpoint avoids (sep : ascii) (s : string) : bool :=
  match s with
  | EmptyString => true
  | String c rest => negb (Ascii.eqb c sep) && avoids sep rest
  end.

(** *** The expectations of [image-handler_test.go] *)

Definition StatusOK : Z := 200.
Definition StatusBadRequest : Z := 400.
Definition StatusNotFound : Z := 404.
Definition StatusRequestEntityTooLarge : Z := 413.
Definition StatusUnsupportedMediaType : Z := 415.

(** [TestSuccess]: each file name is fetched with status 200. *)
Definition TestSuccess : list (string * Z) :=
  [ ("2px.png=s2048x2048", StatusOK);
    ("watermelon.jpg=c200x100", StatusOK);
    ("watermelon.jpg=ps100x100", StatusOK) ].

(** [TestResponseErrors]. *)
Definition TestResponseErrors : list (string * Z) :=
  [ ("notfound.txt=s16x16", StatusNotFound);
    ("notimage.txt=s16x16", StatusUnsupportedMediaType);
    ("bad.jpg=s16x16", StatusUnsupportedMediaType);
    ("1px.png=s16x16", StatusUnsupportedMediaType);
    ("34000px.png=s16x16", StatusRequestEntityTooLarge) ].

(** [TestParameterValidation]. *)
Definition TestParameterValidation : list (string * Z) :=
  [ ("watermelon.jpg", StatusBadRequest);
    ("watermelon.jpg=z16x16", StatusBadRequest);
    ("watermelon.jpg=sp16x16", StatusBadRequest);
    ("watermelon.jpg=s0x10", StatusBadRequest);
    ("watermelon.jpg=s10x0", StatusBadRequest);
    ("watermelon.jpg=c0x10", StatusBadRequest);
    ("watermelon.jpg=c10x0", StatusBadRequest);
    ("watermelon.jpg=s2049x16", StatusBadRequest);
    ("watermelon.jpg=s16x2049", StatusBadRequest);
    ("watermelon.jpg=c2049x16", StatusBadRequest);
    ("watermelon.jpg=c16x2049", StatusBadRequest);
    ("watermelon.jpg=s16x16=s16x16", StatusBadRequest) ].

(** A test expectation is met by the parser when the request is refused by
    it exactly if the expected status is 400. *)
Definition expectation_met (t : string * Z) : bool :=
  Bool.eqb (is_BadRequest (parsePlan (suffix_of (fst t)))) (snd t =? StatusBadRequest).

End Handler.

(** ** Concrete engines, images and states used on example runs *)
Module Fixture.
Import Imagick Orient Imager.

(** An engine that never fails. *)
Definition never : MagickWand -> Call -> option error := fun _ _ => None.

(** An engine whose Gaussian blur fails and whose other calls succeed. *)
Definition blur_fails : MagickWand -> Call -> option error :=
  fun _ c =>
    match c with
    | GaussianBlurImage _ _ => Some (MagickError "blur failed")
    | _ => None
    end.

(** An engine whose metadata stripping fails and whose other calls succeed. *)
Definition strip_fails : MagickWand -> Call -> option error :=
  fun _ c =>
    match c with
    | StripImage => Some (MagickError "strip failed")
    | _ => None
    end.

(** An engine whose every error-returning call fails. *)
Definition always : MagickWand -> Call -> option error :=
  fun _ _ => Some (MagickError "failed").

(** An engine that decodes every blob to a [w] by [h] image with embedded
    profile [icc] and colorspace [cs]. *)
Definition engine (fail : MagickWand -> Call -> option error) (icc : string)
    (cs : ColorspaceType) (w h : Z) : Engine :=
  {| failure := fail;
     imageProfile := fun _ _ => icc;
     imageColorspace := fun _ => cs;
     imageWidth := fun _ => w;
     imageHeight := fun _ => h;
     imageAlphaChannel := fun _ => false;
     imageBlob := fun _ => [] |}.

(** An upright JPEG source of nominal size [w] by [h]. *)
Definition imager (w h : Z) (blur : float) : Imager :=
  {| blob := []; img_Width := w; img_Height := h; img_Orientation := Normal;
     BlurFactor := blur; Sharpen := true; AutoContrast := false;
     OutputFormat := "JPEG"; JpegQuality := 85 |}.

(** A live upright state of working size [w] by [h]. *)
Definition result (w h : Z) (s : bool) : Result :=
  {| wand := Some wand_ptr; img := Some (imager w h 0%float);
     Width := w; Height := h; Orientation := Normal; shrank := s |}.

(** Stand-in for the profile constant of [profiles.go]. *)
Definition profile : string := "sRGB IEC61966-2.1".

End Fixture.

(** * Properties *)

Import Go Imagick Orient Imager.

(** ** Machine arithmetic *)

Lemma uint_sub_fortieth (W : Z) :
  is_uint W -> uint_sub W (uint_div W 40) = W - W / 40.
Proof.
  unfold is_uint, uint_sub, uint_div, wrap_uint, uint_modulus.
  intros HW. apply Z.mod_small.
  assert (0 <= W / 40 <= W) by (split; [apply Z.div_pos | apply Z.div_le_upper_bound]; lia).
  lia.
Qed.

(** [w < W - W/40] in truncating arithmetic says that [w] is below [W] by
    more than a fortieth (2.5%) of [W]. *)
Lemma below_fortieth (W w : Z) :
  w < W - W / 40 <-> W < 40 * (W - w).
Proof.
  pose proof (Z.div_mod W 40 ltac:(lia)).
  pose proof (Z.mod_pos_bound W 40 ltac:(lia)).
  lia.
Qed.

Lemma wrap_int_small (z : Z) :
  - 2 ^ 63 <= z < 2 ^ 63 -> wrap_int z = z.
Proof.
  unfold wrap_int, int_min, uint_modulus. intros Hz.
  rewrite Z.mod_small by lia. lia.
Qed.

(** On operands that [int] holds, [center] is the truncated quotient of the
    source text. *)
Lemma center_quot (current target : Z) :
  fits_int current -> fits_int target ->
  center current target = Z.quot (current - target + 1) 2.
Proof.
  unfold fits_int, center, int_div, int_add, int_sub, int_of_uint.
  intros Hc Ht.
  rewrite (wrap_int_small current), (wrap_int_small target) by lia.
  rewrite (wrap_int_small (current - target)) by lia.
  rewrite (wrap_int_small (current - target + 1)) by lia.
  apply wrap_int_small.
  Z.quot_rem_to_equations. lia.
Qed.

(** ** One step of the pipeline *)

Section Steps.

Variable E : Engine.
Variable Orientation_Crop : CropFn.

Lemma Resize_run (r : Result) (width height : Z) (log : MagickWand) :
  Resize E r width height log =
  match wand r with
  | None => (None, log)
  | Some _ =>
      match failure E log (Resize_call r width height) with
      | Some e => (Some (r, Some e), log ++ [Resize_call r width height])
      | None => (Some (resized r width height, None), log ++ [Resize_call r width height])
      end
  end.
Proof.
  unfold Resize, Resize_call, iferr, bind, invoke, panic, ret.
  destruct (Dimensions (Orientation r) width height) as [ow oh].
  destruct (wand r); [|reflexivity].
  destruct (failure E log _); reflexivity.
Qed.

Lemma Crop_run (r : Result) (width height : Z) (log : MagickWand) :
  Crop E Orientation_Crop r width height log =
  match wand r with
  | None => (None, log)
  | Some _ =>
      match failure E log (Crop_call Orientation_Crop r width height) with
      | Some e => (Some (r, Some e), log ++ [Crop_call Orientation_Crop r width height])
      | None => (Some (cropped r width height, None), log ++ [Crop_call Orientation_Crop r width height])
      end
  end.
Proof.
  unfold Crop, Crop_call, iferr, bind, invoke, panic, ret.
  destruct (Orientation_Crop _ _ _ _ _ _ _) as [[[ow oh] ox] oy].
  destruct (wand r); [|reflexivity].
  destruct (failure E log _); reflexivity.
Qed.

End Steps.

(** ** Resize *)

(** C4. [Resize(w,h)] on working dimensions [(W,H)] selects the Lanczos
    filter if and only if [w < W - W/40] and [h < H - H/40]; that is exactly
    a shrink by more than 2.5% in both axes, so a shrink by 2.5% or less in
    either axis, and any enlargement, selects the triangle filter.  The
    selected filter is the one handed to the engine, and whenever the
    engine accepts the call [Resize] succeeds and leaves [shrank] true
    exactly when Lanczos was selected. *)
Theorem Resize_filter_selection (E : Engine) (r : Result) (w h : Z) (log : MagickWand) :
  is_uint (Width r) -> is_uint (Height r) ->
  let W := Width r in
  let H := Height r in
  let filter := resize_filter r w h in
  let call :=
    let '(ow, oh) := Dimensions (Orientation r) w h in
    ResizeImage ow oh filter 1%float in
  (filter = FILTER_LANCZOS <-> w < W - W / 40 /\ h < H - H / 40)
  /\ (filter = FILTER_LANCZOS <-> W < 40 * (W - w) /\ H < 40 * (H - h))
  /\ (40 * (W - w) <= W \/ 40 * (H - h) <= H -> filter = FILTER_TRIANGLE)
  /\ (W <= w \/ H <= h -> filter = FILTER_TRIANGLE)
  /\ (wand r <> None -> snd (Resize E r w h log) = log ++ [call])
  /\ (wand r <> None -> failure E log call = None ->
      exists r',
        fst (Resize E r w h log) = Some (r', None)
        /\ (shrank r' = true <-> filter = FILTER_LANCZOS))
  /\ (forall r', fst (Resize E r w h log) = Some (r', None) ->
      (shrank r' = true <-> filter = FILTER_LANCZOS)).
Proof.
  intros HW HH W H filter call.
  assert (Hsel : filter = FILTER_LANCZOS <-> w < W - W / 40 /\ h < H - H / 40).
  { subst filter W H. unfold resize_filter, shrinking_by.
    rewrite !uint_sub_fortieth by assumption.
    destruct (w <? _) eqn:Hw; destruct (h <? _) eqn:Hh; simpl;
      rewrite ?Z.ltb_lt, ?Z.ltb_ge in *; split; intros; try discriminate; try lia; auto. }
  assert (Hpct : filter = FILTER_LANCZOS <-> W < 40 * (W - w) /\ H < 40 * (H - h)).
  { rewrite Hsel, !below_fortieth. reflexivity. }
  assert (Htri : forall P : Prop, (P -> ~ (W < 40 * (W - w) /\ H < 40 * (H - h))) ->
                                  P -> filter = FILTER_TRIANGLE).
  { intros P HP HPp. destruct filter eqn:Hf; [reflexivity|].
    exfalso. apply (HP HPp). apply Hpct. reflexivity. }
  assert (Hflag : shrank (resized r w h) = true <-> filter = FILTER_LANCZOS).
  { simpl. subst filter. unfold resize_filter.
    destruct (shrinking_by r w h); split; intros; try reflexivity; discriminate. }
  assert (Hcall : call = Resize_call r w h) by reflexivity.
  split; [exact Hsel|]. split; [exact Hpct|].
  split; [apply Htri; lia|].
  split; [apply Htri; unfold is_uint in *; subst W H; lia|].
  split; [|split].
  - intros Hwand. rewrite Resize_run, Hcall.
    destruct (wand r); [|congruence].
    destruct (failure E log _); reflexivity.
  - intros Hwand Hok. rewrite Hcall in Hok. rewrite Resize_run, Hok.
    destruct (wand r); [|congruence].
    exists (resized r w h). split; [reflexivity | exact Hflag].
  - intros r' Hrun. rewrite Resize_run in Hrun. destruct (wand r); [|discriminate].
    destruct (failure E log _); inversion Hrun; subst r'. exact Hflag.
Qed.

(** The theorem above on a 1000 by 800 image resized to 500 by 400: the
    engine is handed the Lanczos filter, accepts, and the flag is set. *)
Lemma Resize_filter_selection_witness :
  let r := Fixture.result 1000 800 false in
  let E := Fixture.engine Fixture.never "" COLORSPACE_SRGB 1000 800 in
  (is_uint (Width r) /\ is_uint (Height r) /\ wand r <> None
   /\ failure E [] (ResizeImage 500 400 FILTER_LANCZOS 1%float) = None)
  /\ resize_filter r 500 400 = FILTER_LANCZOS
  /\ snd (Resize E r 500 400 []) = [ResizeImage 500 400 FILTER_LANCZOS 1%float]
  /\ exists r', fst (Resize E r 500 400 []) = Some (r', None) /\ shrank r' = true.
Proof.
  intros r E.
  assert (HW : is_uint (Width r)) by (unfold is_uint, uint_modulus; simpl; lia).
  assert (HH : is_uint (Height r)) by (unfold is_uint, uint_modulus; simpl; lia).
  assert (Hwand : wand r <> None) by discriminate.
  assert (Hok : failure E [] (ResizeImage 500 400 FILTER_LANCZOS 1%float) = None)
    by reflexivity.
  destruct (Resize_filter_selection E r 500 400 [] HW HH)
    as (Hsel & _ & _ & _ & Hlog & Hset & _).
  assert (Hfilter : resize_filter r 500 400 = FILTER_LANCZOS)
    by (apply Hsel; simpl; lia).
  split; [exact (conj HW (conj HH (conj Hwand Hok)))|].
  split; [exact Hfilter|].
  split; [exact (Hlog Hwand)|].
  destruct (Hset Hwand Hok) as (r' & Hrun & Hflag).
  exists r'. split; [exact Hrun | apply Hflag; exact Hfilter].
Defined.

(** ** Crop *)

(** C9. A [Crop] that succeeds changes [Width] and [Height] only: [shrank],
    [Orientation], the wand and the image are what they were.  When the
    engine call of [Crop] or of [Resize] fails, the call returns that error
    and the state is the one it was entered with. *)
Theorem Crop_Resize_frame (E : Engine) (Orientation_Crop : CropFn)
    (r : Result) (w h : Z) (log : MagickWand) :
  match wand r, failure E log (Crop_call Orientation_Crop r w h) with
  | None, _ => fst (Crop E Orientation_Crop r w h log) = None
  | Some _, Some e => fst (Crop E Orientation_Crop r w h log) = Some (r, Some e)
  | Some _, None =>
      exists r', fst (Crop E Orientation_Crop r w h log) = Some (r', None)
                 /\ Width r' = w /\ Height r' = h
                 /\ shrank r' = shrank r /\ Orientation r' = Orientation r
                 /\ wand r' = wand r /\ img r' = img r
  end
  /\
  match wand r, failure E log (Resize_call r w h) with
  | None, _ => fst (Resize E r w h log) = None
  | Some _, Some e => fst (Resize E r w h log) = Some (r, Some e)
  | Some _, None =>
      exists r', fst (Resize E r w h log) = Some (r', None)
                 /\ Width r' = w /\ Height r' = h
                 /\ Orientation r' = Orientation r
                 /\ wand r' = wand r /\ img r' = img r
  end.
Proof.
  rewrite Crop_run, Resize_run.
  split.
  - destruct (wand r) eqn:Hwand; [|reflexivity].
    destruct (failure E log (Crop_call _ _ _ _)); [reflexivity|].
    exists (cropped r w h). simpl. rewrite Hwand. repeat split; reflexivity.
  - destruct (wand r) eqn:Hwand; [|reflexivity].
    destruct (failure E log (Resize_call _ _ _)); [reflexivity|].
    exists (resized r w h). simpl. rewrite Hwand. repeat split; reflexivity.
Qed.

(** C6, as the code has it.  For a target no larger than the working size,
    [Crop(w,h)] hands the corner [((W - w + 1)/2, (H - h + 1)/2)] to
    [Orientation.Crop] and the resulting box to the engine.  With an even
    margin the same number of pixels goes on both sides; with an odd margin
    the leading (left/top) side loses one pixel more than the trailing
    (right/bottom) side. *)
Theorem Crop_centered (E : Engine) (Orientation_Crop : CropFn)
    (r : Result) (w h : Z) (log : MagickWand) :
  fits_int (Width r) -> fits_int (Height r) ->
  0 <= w <= Width r -> 0 <= h <= Height r ->
  let x := (Width r - w + 1) / 2 in
  let y := (Height r - h + 1) / 2 in
  let trailing_x := Width r - (x + w) in
  let trailing_y := Height r - (y + h) in
  center (Width r) w = x /\ center (Height r) h = y
  /\ (wand r <> None ->
      snd (Crop E Orientation_Crop r w h log) =
      log ++ [let '(ow, oh, ox, oy) :=
                Orientation_Crop (Orientation r) w h x y (Width r) (Height r)
              in CropImage ow oh ox oy])
  /\ (Z.even (Width r - w) = true -> x = trailing_x)
  /\ (Z.odd (Width r - w) = true -> x = trailing_x + 1)
  /\ (Z.even (Height r - h) = true -> y = trailing_y)
  /\ (Z.odd (Height r - h) = true -> y = trailing_y + 1).
Proof.
  intros HW HH Hw Hh x y tx ty.
  assert (Hfit : forall c t, fits_int c -> 0 <= t <= c -> fits_int t)
    by (unfold fits_int; intros; lia).
  assert (Hcx : center (Width r) w = x).
  { rewrite center_quot by eauto. subst x. apply Z.quot_div_nonneg; lia. }
  assert (Hcy : center (Height r) h = y).
  { rewrite center_quot by eauto. subst y. apply Z.quot_div_nonneg; lia. }
  assert (Hmargin : forall c t, 0 <= t <= c ->
            (Z.even (c - t) = true -> (c - t + 1) / 2 = c - ((c - t + 1) / 2 + t))
            /\ (Z.odd (c - t) = true -> (c - t + 1) / 2 = c - ((c - t + 1) / 2 + t) + 1)).
  { intros c t Hct. split; intros Hp.
    - apply Z.even_spec in Hp. destruct Hp as [k Hk].
      replace (c - t + 1) with (1 + k * 2) by lia.
      rewrite Z.div_add by lia. simpl. lia.
    - apply Z.odd_spec in Hp. destruct Hp as [k Hk].
      replace (c - t + 1) with (0 + (k + 1) * 2) by lia.
      rewrite Z.div_add by lia. simpl. lia. }
  split; [exact Hcx|]. split; [exact Hcy|].
  split.
  - intros Hwand. rewrite Crop_run. unfold Crop_call. rewrite Hcx, Hcy.
    destruct (wand r); [|congruence].
    destruct (failure E log _); reflexivity.
  - destruct (Hmargin (Width r) w Hw). destruct (Hmargin (Height r) h Hh).
    subst x y tx ty. auto.
Qed.

(** The theorem above on a 5 by 6 image cropped to 2 by 2: the corner is
    (2, 2); one column is left on the right of the box, two rows below. *)
Lemma Crop_centered_witness :
  let r := Fixture.result 5 6 false in
  let E := Fixture.engine Fixture.never "" COLORSPACE_SRGB 5 6 in
  (fits_int (Width r) /\ fits_int (Height r) /\ 0 <= 2 <= Width r /\ 0 <= 2 <= Height r)
  /\ center (Width r) 2 = 2 /\ center (Height r) 2 = 2
  /\ snd (Crop E Crop_upright r 2 2 []) = [CropImage 2 2 2 2].
Proof.
  intros r E.
  assert (HW : fits_int (Width r)) by (unfold fits_int; simpl; lia).
  assert (HH : fits_int (Height r)) by (unfold fits_int; simpl; lia).
  assert (Hw : 0 <= 2 <= Width r) by (simpl; lia).
  assert (Hh : 0 <= 2 <= Height r) by (simpl; lia).
  destruct (Crop_centered E Crop_upright r 2 2 [] HW HH Hw Hh) as (Hx & Hy & Hrun & _).
  split; [exact (conj HW (conj HH (conj Hw Hh)))|].
  split; [exact Hx|]. split; [exact Hy|].
  apply Hrun. discriminate.
Defined.

(** C6 as stated fails: cropping a width of 5 to 2 leaves an odd margin of
    3, of which two pixels are taken on the left and one on the right; the
    trailing side does not lose the extra pixel. *)
Lemma Crop_odd_margin_counterexample :
  let W := 5 in
  let w := 2 in
  let leading := center W w in
  let trailing := W - (leading + w) in
  Z.odd (W - w) = true /\ leading = 2 /\ trailing = 1 /\ ~ (trailing = leading + 1).
Proof.
  vm_compute. repeat split; discriminate.
Qed.

(** The centring offset of one axis for a target larger than the working
    size, both within the range of [int]. *)
Lemma center_oversized (current target : Z) :
  fits_int current -> fits_int target -> current < target ->
  center current target = Z.quot (current - target + 1) 2
  /\ center current target <= 0
  /\ (center current target < 0 <-> current + 3 <= target).
Proof.
  intros Hc Ht Hlt. rewrite center_quot by assumption.
  split; [reflexivity|].
  split; Z.quot_rem_to_equations; lia.
Qed.

(** Beyond the range of [int] the conversion [int(target)] wraps around:
    the largest [uint] counts as -1 and the offset comes out positive. *)
Lemma center_wraps_beyond_int :
  is_uint (2 ^ 64 - 1) /\ ~ fits_int (2 ^ 64 - 1) /\ center 3 (2 ^ 64 - 1) = 2.
Proof.
  unfold is_uint, fits_int, uint_modulus.
  split; [lia|]. split; [lia|]. reflexivity.
Qed.

(** C10, as the code has it.  In each axis, for working and target
    dimensions within the range of [int], a target larger than the working
    size has the centring offset [(current - target + 1)/2] truncated
    toward zero: it is never positive, and it is negative exactly when the
    target exceeds the working size by three pixels or more.  Whatever the
    offsets, [Crop] performs no check of its own: it hands both to
    [Orientation.Crop] and the resulting box to the engine, succeeds
    whenever the engine accepts the box and fails only with the engine's
    error. *)
Theorem Crop_oversized (E : Engine) (Orientation_Crop : CropFn)
    (r : Result) (w h : Z) (log : MagickWand) :
  let x := center (Width r) w in
  let y := center (Height r) h in
  let call :=
    let '(ow, oh, ox, oy) :=
      Orientation_Crop (Orientation r) w h x y (Width r) (Height r) in
    CropImage ow oh ox oy in
  (fits_int (Width r) -> fits_int w -> Width r < w ->
     x = Z.quot (Width r - w + 1) 2 /\ x <= 0 /\ (x < 0 <-> Width r + 3 <= w))
  /\ (fits_int (Height r) -> fits_int h -> Height r < h ->
     y = Z.quot (Height r - h + 1) 2 /\ y <= 0 /\ (y < 0 <-> Height r + 3 <= h))
  /\ (wand r <> None -> snd (Crop E Orientation_Crop r w h log) = log ++ [call])
  /\ (wand r <> None -> failure E log call = None ->
      exists r', fst (Crop E Orientation_Crop r w h log) = Some (r', None)
                 /\ Width r' = w /\ Height r' = h)
  /\ (forall r' e, fst (Crop E Orientation_Crop r w h log) = Some (r', Some e) ->
      failure E log call = Some e).
Proof.
  intros x y call.
  assert (Hcall : call = Crop_call Orientation_Crop r w h) by reflexivity.
  split; [apply center_oversized|].
  split; [apply center_oversized|].
  rewrite Crop_run, Hcall.
  split; [|split].
  - intros Hwand. destruct (wand r); [|congruence].
    destruct (failure E log _); reflexivity.
  - intros Hwand Hok. rewrite Hok. destruct (wand r); [|congruence].
    exists (cropped r w h). repeat split; reflexivity.
  - intros r' e Hrun. destruct (wand r); [|discriminate].
    destruct (failure E log _); inversion Hrun; reflexivity.
Qed.

(** The theorem above on a 100 by 100 image cropped to 103 by 110: the
    offsets are -1 and -4 and reach the engine as they are, and the crop
    succeeds. *)
Lemma Crop_oversized_witness :
  let r := Fixture.result 100 100 false in
  let E := Fixture.engine Fixture.never "" COLORSPACE_SRGB 100 100 in
  (fits_int (Width r) /\ fits_int 103 /\ Width r < 103
   /\ fits_int (Height r) /\ fits_int 110 /\ Height r < 110
   /\ wand r <> None /\ failure E [] (CropImage 103 110 (-1) (-4)) = None)
  /\ center (Width r) 103 = -1 /\ center (Height r) 110 = -4
  /\ snd (Crop E Crop_upright r 103 110 []) = [CropImage 103 110 (-1) (-4)]
  /\ exists r', fst (Crop E Crop_upright r 103 110 []) = Some (r', None)
                /\ Width r' = 103 /\ Height r' = 110.
Proof.
  intros r E.
  assert (HW : fits_int (Width r)) by (unfold fits_int; simpl; lia).
  assert (Hw : fits_int 103) by (unfold fits_int; lia).
  assert (Hwlt : Width r < 103) by (simpl; lia).
  assert (HH : fits_int (Height r)) by (unfold fits_int; simpl; lia).
  assert (Hh : fits_int 110) by (unfold fits_int; lia).
  assert (Hhlt : Height r < 110) by (simpl; lia).
  assert (Hwand : wand r <> None) by discriminate.
  assert (Hok : failure E [] (CropImage 103 110 (-1) (-4)) = None) by reflexivity.
  destruct (Crop_oversized E Crop_upright r 103 110 [])
    as (Hx & Hy & Hlog & Hrun & _).
  destruct (Hx HW Hw Hwlt) as (Hxq & _).
  destruct (Hy HH Hh Hhlt) as (Hyq & _).
  split; [exact (conj HW (conj Hw (conj Hwlt (conj HH (conj Hh (conj Hhlt
                  (conj Hwand Hok)))))))|].
  split; [exact Hxq|]. split; [exact Hyq|].
  split; [exact (Hlog Hwand)|].
  exact (Hrun Hwand Hok).
Defined.

(** C10 as stated fails: a target one pixel wider than the image has the
    offset [(100 - 101 + 1)/2 = 0], and one two pixels wider the offset
    [(-1)/2 = 0] under Go's truncating division; neither is negative. *)
Lemma Crop_oversized_counterexample :
  100 < 101 /\ ~ (center 100 101 < 0) /\ 100 < 102 /\ ~ (center 100 102 < 0)
  /\ snd (Crop (Fixture.engine Fixture.never "" COLORSPACE_SRGB 100 100) Crop_upright
            (Fixture.result 100 100 false) 102 101 [])
     = [CropImage 102 101 0 0].
Proof.
  vm_compute. repeat split; discriminate.
Qed.

(** ** Colour normalisation *)

Ltac run_monad :=
  unfold iferr, bind, invoke, invoke_, query, the_img, panic, ret; simpl.

(** C8, as the code has it.  With [icc] the embedded profile: (1) a profile
    equal to the reference one leads to marking only; (2) another profile
    leads to the application of the reference profile, followed by marking
    when the application succeeded and by the test of (3) when it failed;
    (3) without a profile, an image in another colorspace is transformed
    directly, and an image already in sRGB is left alone: no path runs. *)
Theorem normalizeColor_paths (E : Engine) (reference : string) (r : Result)
    (log : MagickWand) :
  wand r <> None ->
  let icc := imageProfile E log "icc" in
  let log1 := log ++ [GetImageProfile "icc"] in
  let apply := ProfileImage "icc" reference in
  let fallback (l : MagickWand) : list Call :=
    GetImageColorspace ::
    match imageColorspace E l with
    | COLORSPACE_SRGB => []
    | _ => [TransformImageColorspace COLORSPACE_SRGB]
    end in
  let trace := snd (normalizeColor E reference r log) in
  (icc <> "" -> icc = reference ->
     trace = log1 ++ [SetColorspace COLORSPACE_SRGB])
  /\ (icc <> "" -> icc <> reference -> failure E log1 apply = None ->
     trace = log1 ++ [apply; SetColorspace COLORSPACE_SRGB])
  /\ (icc <> "" -> icc <> reference -> failure E log1 apply <> None ->
     trace = log1 ++ apply :: fallback (log1 ++ [apply]))
  /\ (icc = "" -> trace = log1 ++ fallback log1).
Proof.
  intros Hwand icc log1 apply fallback trace.
  subst trace. unfold normalizeColor, applyColorProfile. run_monad.
  destruct (wand r) as [p|]; [clear Hwand|congruence].
  fold icc. fold log1. fold apply.
  repeat split.
  - intros Hne Href.
    apply String.eqb_neq in Hne. rewrite Hne.
    apply String.eqb_eq in Href. rewrite Href. reflexivity.
  - intros Hne Href Hok.
    apply String.eqb_neq in Hne. rewrite Hne.
    apply String.eqb_neq in Href. rewrite Href.
    rewrite Hok. simpl. rewrite <- app_assoc. reflexivity.
  - intros Hne Href Hfail.
    apply String.eqb_neq in Hne. rewrite Hne.
    apply String.eqb_neq in Href. rewrite Href.
    destruct (failure E log1 apply); [|congruence].
    subst fallback. simpl.
    destruct (imageColorspace E (log1 ++ [apply])); simpl;
      rewrite <- ?app_assoc; reflexivity.
  - intros Hnone.
    apply String.eqb_eq in Hnone. rewrite Hnone.
    subst fallback. simpl.
    destruct (imageColorspace E log1); simpl; rewrite <- ?app_assoc; reflexivity.
Qed.

(** The theorem above on a CMYK image without a profile: it is transformed
    directly. *)
Lemma normalizeColor_paths_witness :
  let E := Fixture.engine Fixture.never "" COLORSPACE_CMYK 10 10 in
  let r := Fixture.result 10 10 false in
  wand r <> None
  /\ snd (normalizeColor E Fixture.profile r []) =
     [GetImageProfile "icc"; GetImageColorspace; TransformImageColorspace COLORSPACE_SRGB].
Proof.
  intros E r.
  assert (Hwand : wand r <> None) by discriminate.
  split; [exact Hwand|].
  destruct (normalizeColor_paths E Fixture.profile r [] Hwand) as (_ & _ & _ & Hnone).
  apply Hnone. reflexivity.
Defined.

(** C8 as stated fails: on an sRGB image without a profile none of the
    three paths runs, and on an image with a foreign profile two calls run,
    the profile application and the marking. *)
Lemma normalizeColor_counterexample :
  let plain := Fixture.engine Fixture.never "" COLORSPACE_SRGB 10 10 in
  let foreign := Fixture.engine Fixture.never "Adobe RGB (1998)" COLORSPACE_SRGB 10 10 in
  let r := Fixture.result 10 10 false in
  color_paths (snd (normalizeColor plain Fixture.profile r [])) = []
  /\ color_paths (snd (normalizeColor foreign Fixture.profile r [])) =
     [ProfileImage "icc" Fixture.profile; SetColorspace COLORSPACE_SRGB]
  /\ List.length (color_paths (snd (normalizeColor plain Fixture.profile r []))) <> 1%nat
  /\ List.length (color_paths (snd (normalizeColor foreign Fixture.profile r []))) <> 1%nat.
Proof.
  vm_compute. repeat split; discriminate.
Qed.

(** ** Construction *)

(** Case analysis on the innermost scrutinee of the goal. *)
Ltac case_step :=
  match goal with
  | |- context [match ?x with _ => _ end] =>
      lazymatch x with
      | context [match _ with _ => _ end] => fail
      | _ => destruct x eqn:?
      end
  end; simpl in *.

(** The release discipline of [NewResult].  A result handed back holds a
    live, unreleased wand.  An error comes with a wand released exactly
    once, except when it is the error of the blur: then the last call is
    the failed blur and the wand has not been released. *)
Lemma NewResult_releases (E : Engine) (reference : string) (i : Imager)
    (width height : Z) (log0 : MagickWand) :
  let '(out, log) := NewResult E reference i width height log0 in
  match out with
  | Some (inl r) => releases log = 0%nat /\ wand r = Some wand_ptr
  | Some (inr e) =>
      (releases log = 1%nat /\ exists pre, log = pre ++ [Destroy])
      \/ (releases log = 0%nat /\
          exists pre radius sigma,
            log = pre ++ [GaussianBlurImage radius sigma]
            /\ failure E pre (GaussianBlurImage radius sigma) = Some e)
  | None => False
  end.
Proof.
  unfold NewResult, normalizeColor, applyColorProfile, Close, NewMagickWand.
  run_monad.
  repeat case_step;
    try (split; reflexivity);
    try (left; split; [reflexivity|];
         match goal with
         | |- exists pre, ?l = pre ++ [_] => exists (removelast l); reflexivity
         end);
    try (right; split; [reflexivity|];
         match goal with
         | |- exists pre radius sigma, ?l = _ /\ _ =>
             exists (removelast l);
             match l with
             | context [GaussianBlurImage ?rad ?sig] => exists rad, sig
             end;
             split; [reflexivity | assumption]
         end).
Qed.

(** [Get] itself releases nothing when it succeeds: the wand stays live
    for the caller to close. *)
Lemma Get_success_keeps_wand :
  let E := Fixture.engine Fixture.never "" COLORSPACE_SRGB 100 100 in
  let r := Fixture.result 100 100 true in
  exists log,
    Get E Fix_upright r [] = (Some (r, inl []), log)
    /\ releases log = 0%nat
    /\ log = [UnsharpMaskImage 0%float 0.8%float 0.6%float 0.05%float;
              SetImageDepth 8; StripImage; GetImageAlphaChannel;
              SetImageFormat "JPEG"; SetImageCompressionQuality 85;
              SetInterlaceScheme INTERLACE_LINE; GetImageBlob].
Proof.
  intros E r. eexists. split; [vm_compute; reflexivity|].
  split; reflexivity.
Qed.

(** The one error return of [Get] that closes the result is the failure of
    [StripImage]. *)
Lemma Get_strip_failure_closes :
  let E := Fixture.engine Fixture.strip_fails "" COLORSPACE_SRGB 100 100 in
  let r := Fixture.result 100 100 false in
  exists log,
    Get E Fix_upright r [] = (Some (zero_Result, inr (MagickError "strip failed")), log)
    /\ releases log = 1%nat.
Proof.
  intros E r. eexists. split; [vm_compute; reflexivity|]. reflexivity.
Qed.

(** C1, broken by the code.  When the Gaussian blur fails, [NewResult]
    returns the error without closing the result: the wand of that pipeline
    instance is never released, while every other error return of
    [NewResult] releases it (lemma [NewResult_releases]).  Here on a 1000 by
    1000 source decoded at 250 by 250 for a 100 by 100 target. *)
Theorem NewResult_blur_failure_leaks :
  let E := Fixture.engine Fixture.blur_fails "" COLORSPACE_SRGB 250 250 in
  let i := Fixture.imager 1000 1000 1%float in
  exists log,
    NewResult E Fixture.profile i 100 100 NewMagickWand
    = (Some (inr (MagickError "blur failed")), log)
    /\ releases log = 0%nat
    /\ log = [SetOption "jpeg:size" "100x100"; ReadImageBlob []; ResetIterator;
              ResetImagePage ""; GetImageProfile "icc"; GetImageColorspace;
              GetImageWidth; GetImageHeight; GaussianBlurImage 0%float 2.5%float].
Proof.
  intros E i. eexists. split; [vm_compute; reflexivity|].
  split; reflexivity.
Qed.

(** C5, as the code has it.  The blur of the constructor is gated on a
    positive blur factor and on the (orientation-adjusted) hint being
    non-zero and smaller, in both axes, than the nominal dimensions
    [img.Width] and [img.Height] of the source, not than the working
    dimensions.  On a construction that succeeds the blur was applied
    exactly when the gate holds, as the last call, with radius 0 and sigma
    the blur factor times (working width / hinted width). *)
Theorem NewResult_blur (E : Engine) (reference : string) (i : Imager)
    (width height : Z) (log0 : MagickWand) :
  let '(w, h) := Dimensions (img_Orientation i) width height in
  (blur_gate i w h = true <->
     PrimFloat.ltb 0%float (BlurFactor i) = true
     /\ 0 < w < img_Width i /\ 0 < h < img_Height i)
  /\ forall r log,
       NewResult E reference i width height log0 = (Some (inl r), log) ->
       blurred log = blur_gate i w h
       /\ (blur_gate i w h = true ->
           exists pre,
             log = pre ++ [GaussianBlurImage 0%float
                             (PrimFloat.mul (BlurFactor i)
                                (PrimFloat.div (float64_of_uint (Width r))
                                               (float64_of_uint w)))]).
Proof.
  destruct (Dimensions (img_Orientation i) width height) as [w h] eqn:Hdim.
  split.
  - unfold blur_gate. rewrite !andb_true_iff, !Z.ltb_lt. tauto.
  - intros r log.
    unfold NewResult, normalizeColor, applyColorProfile, Close, NewMagickWand.
    run_monad. rewrite Hdim.
    repeat case_step; intros Hrun; inversion Hrun; subst; simpl;
      (split; [reflexivity|]); intros Hgate; try discriminate;
      match goal with
      | |- exists pre, ?l = pre ++ [_] => exists (removelast l); reflexivity
      end.
Qed.

(** The theorem above on a 1000 by 1000 source decoded at 500 by 500 for a
    500 by 500 target with blur factor 1: the blur runs with sigma 1. *)
Lemma NewResult_blur_witness :
  let E := Fixture.engine Fixture.never "" COLORSPACE_SRGB 500 500 in
  let i := Fixture.imager 1000 1000 1%float in
  exists r log,
    NewResult E Fixture.profile i 500 500 [] = (Some (inl r), log)
    /\ blurred log = true
    /\ exists pre, log = pre ++ [GaussianBlurImage 0%float 1%float].
Proof.
  intros E i.
  pose proof (NewResult_blur E Fixture.profile i 500 500 []) as H.
  simpl in H. destruct H as [_ H].
  eexists. eexists. split; [vm_compute; reflexivity|].
  match goal with
  | |- blurred ?l = _ /\ _ =>
      destruct (H {| wand := Some wand_ptr; img := Some i; Width := 500;
                     Height := 500; Orientation := Normal; shrank := true |}
                  l eq_refl) as [Hb Hs]
  end.
  split; [exact Hb|]. exact (Hs eq_refl).
Defined.

(** C5 as stated fails: a 1000 by 1000 source hinted at 500 by 500 and
    decoded at 500 by 500 is blurred, although the hint is not smaller than
    the working dimensions in either axis. *)
Lemma NewResult_blur_counterexample :
  let E := Fixture.engine Fixture.never "" COLORSPACE_SRGB 500 500 in
  let i := Fixture.imager 1000 1000 1%float in
  exists r log,
    NewResult E Fixture.profile i 500 500 [] = (Some (inl r), log)
    /\ PrimFloat.ltb 0%float (BlurFactor i) = true
    /\ blurred log = true
    /\ ~ (500 < Width r /\ 500 < Height r).
Proof.
  intros E i. eexists. eexists.
  split; [vm_compute; reflexivity|].
  split; [reflexivity|]. split; [reflexivity|].
  simpl. lia.
Qed.

(** ** The shrank flag along a plan *)

Lemma crops_keep_shrank (E : Engine) (Orientation_Crop : CropFn) (crops : list Step) :
  forallb is_DoCrop crops = true ->
  forall r log r' err log',
    apply_steps E Orientation_Crop crops r log = (Some (r', err), log') ->
    shrank r' = shrank r.
Proof.
  induction crops as [|s rest IH]; intros Hall r log r' err log' Hrun.
  - inversion Hrun. reflexivity.
  - simpl in Hall. apply andb_true_iff in Hall. destruct Hall as [Hs Hrest].
    destruct s as [w h|w h]; [discriminate|].
    simpl in Hrun. unfold bind in Hrun. rewrite Crop_run in Hrun.
    destruct (wand r); [|discriminate].
    destruct (failure E log _).
    + inversion Hrun. reflexivity.
    + apply (IH Hrest) in Hrun. exact Hrun.
Qed.

(** The flag a construction that succeeds hands over. *)
Lemma NewResult_shrank (E : Engine) (reference : string) (i : Imager)
    (width height : Z) (log0 : MagickWand) (r : Result) (log : MagickWand) :
  NewResult E reference i width height log0 = (Some (inl r), log) ->
  shrank r = (Width r <? img_Width i) && (Height r <? img_Height i).
Proof.
  unfold NewResult, normalizeColor, applyColorProfile, Close, NewMagickWand.
  run_monad.
  repeat case_step; intros Hrun; inversion Hrun; subst; simpl;
    symmetry; assumption.
Qed.

(** C3, as the code has it.  The flag is not sticky.  The constructor sets
    it exactly when decoding left both working dimensions below the
    nominal ones.  Every [Crop], accepted or refused by the engine, and
    every [Resize] the engine refuses leave it as it was.  Every [Resize]
    the engine accepts overwrites it, whatever it was before, with whether
    this very resize shrinks both axes by more than 2.5%; that value is
    what the crops after it carry to the encoder. *)
Theorem shrank_along_plan (E : Engine) (reference : string)
    (Orientation_Crop : CropFn) (r : Result) (log : MagickWand) :
  (forall i width height l r0 log0,
     NewResult E reference i width height l = (Some (inl r0), log0) ->
     shrank r0 = (Width r0 <? img_Width i) && (Height r0 <? img_Height i))
  /\ (forall w h, wand r <> None ->
      exists r',
        fst (Crop E Orientation_Crop r w h log)
        = Some (r', failure E log (Crop_call Orientation_Crop r w h))
        /\ shrank r' = shrank r)
  /\ (forall w h e, wand r <> None ->
      failure E log (Resize_call r w h) = Some e ->
      fst (Resize E r w h log) = Some (r, Some e))
  /\ (forall w h, wand r <> None ->
      failure E log (Resize_call r w h) = None ->
      exists r',
        fst (Resize E r w h log) = Some (r', None)
        /\ shrank r' = shrinking_by r w h)
  /\ (forall w h, is_uint (Width r) -> is_uint (Height r) ->
      (shrinking_by r w h = true <->
       Width r < 40 * (Width r - w) /\ Height r < 40 * (Height r - h)))
  /\ (forall crops, forallb is_DoCrop crops = true ->
      (forall r' err log',
         apply_steps E Orientation_Crop crops r log = (Some (r', err), log') ->
         shrank r' = shrank r)
      /\ (forall w h r' log',
         apply_steps E Orientation_Crop (DoResize w h :: crops) r log
         = (Some (r', None), log') ->
         shrank r' = shrinking_by r w h)).
Proof.
  split; [intros i width height l r0 log0; apply NewResult_shrank|].
  split; [|split; [|split; [|split]]].
  - intros w h Hwand. rewrite Crop_run.
    destruct (wand r); [|congruence].
    destruct (failure E log _).
    + exists r. split; reflexivity.
    + exists (cropped r w h). split; reflexivity.
  - intros w h e Hwand Hfail. rewrite Resize_run, Hfail.
    destruct (wand r); [reflexivity|congruence].
  - intros w h Hwand Hok. rewrite Resize_run, Hok.
    destruct (wand r); [|congruence].
    exists (resized r w h). split; reflexivity.
  - intros w h HW HH. unfold shrinking_by.
    rewrite !uint_sub_fortieth by assumption.
    rewrite andb_true_iff, !Z.ltb_lt, !below_fortieth. reflexivity.
  - intros crops Hall. split.
    + intros r' err log'. apply crops_keep_shrank. exact Hall.
    + intros w h r' log' Hrun.
      simpl in Hrun. unfold bind in Hrun. rewrite Resize_run in Hrun.
      destruct (wand r); [|discriminate].
      destruct (failure E log _).
      * inversion Hrun.
      * apply (crops_keep_shrank _ _ _ Hall) in Hrun. exact Hrun.
Qed.

(** The theorem above on a 1000 by 1000 source decoded at 500 by 500: the
    constructor sets the flag; a crop keeps it; a refused resize keeps it;
    an accepted resize to 490 by 490 clears it, also when a crop follows. *)
Lemma shrank_along_plan_witness :
  let E := Fixture.engine Fixture.never "" COLORSPACE_SRGB 500 500 in
  let F := Fixture.engine Fixture.always "" COLORSPACE_SRGB 500 500 in
  let i := Fixture.imager 1000 1000 0%float in
  let r := {| wand := Some wand_ptr; img := Some i; Width := 500; Height := 500;
              Orientation := Normal; shrank := true |} in
  (wand r <> None /\ is_uint (Width r) /\ is_uint (Height r)
   /\ forallb is_DoCrop [DoCrop 400 400] = true
   /\ failure E [] (Resize_call r 490 490) = None
   /\ failure F [] (Resize_call r 490 490) = Some (MagickError "failed"))
  /\ (exists log, NewResult E Fixture.profile i 500 500 [] = (Some (inl r), log))
  /\ shrank r = (Width r <? 1000) && (Height r <? 1000)
  /\ (exists r', fst (Crop E Crop_upright r 400 400 []) = Some (r', None)
                 /\ shrank r' = true)
  /\ fst (Resize F r 490 490 []) = Some (r, Some (MagickError "failed"))
  /\ (exists r', fst (Resize E r 490 490 []) = Some (r', None) /\ shrank r' = false)
  /\ (exists r' log',
        apply_steps E Crop_upright [DoResize 490 490; DoCrop 400 400] r []
        = (Some (r', None), log')
        /\ shrank r' = false).
Proof.
  intros E F i r.
  assert (Hwand : wand r <> None) by discriminate.
  assert (HW : is_uint (Width r)) by (unfold is_uint, uint_modulus; simpl; lia).
  assert (HH : is_uint (Height r)) by (unfold is_uint, uint_modulus; simpl; lia).
  assert (Hall : forallb is_DoCrop [DoCrop 400 400] = true) by reflexivity.
  assert (Hok : failure E [] (Resize_call r 490 490) = None) by reflexivity.
  assert (Hfail : failure F [] (Resize_call r 490 490) = Some (MagickError "failed"))
    by reflexivity.
  assert (Hrun : exists log,
             NewResult E Fixture.profile i 500 500 [] = (Some (inl r), log))
    by (eexists; vm_compute; reflexivity).
  destruct (shrank_along_plan E Fixture.profile Crop_upright r [])
    as (Hnew & Hcrop & _ & Hresize & Hpct & Hplan).
  destruct (shrank_along_plan F Fixture.profile Crop_upright r [])
    as (_ & _ & Hrefused & _).
  assert (Hclear : shrinking_by r 490 490 = false).
  { destruct (shrinking_by r 490 490) eqn:Hs; [|reflexivity].
    apply (Hpct 490 490 HW HH) in Hs. simpl in Hs. lia. }
  split; [exact (conj Hwand (conj HW (conj HH (conj Hall (conj Hok Hfail)))))|].
  split; [exact Hrun|].
  split; [destruct Hrun as [log Hlog]; exact (Hnew i 500 500 [] r log Hlog)|].
  split; [exact (Hcrop 400 400 Hwand)|].
  split; [exact (Hrefused 490 490 _ Hwand Hfail)|].
  split.
  - destruct (Hresize 490 490 Hwand Hok) as (r' & Hr' & Hs).
    exists r'. split; [exact Hr' | congruence].
  - destruct (Hplan [DoCrop 400 400] Hall) as [_ Hafter].
    eexists. eexists. split; [vm_compute; reflexivity|].
    exact (eq_trans (Hafter 490 490 _ _ eq_refl) Hclear).
Defined.

(** C3 as stated fails: a 1000 by 1000 source decoded at 500 by 500 leaves
    the constructor with [shrank] set; the scale to 500 by 500 that the
    plan asks for then clears the flag. *)
Lemma shrank_sticky_counterexample :
  let E := Fixture.engine Fixture.never "" COLORSPACE_SRGB 500 500 in
  let i := Fixture.imager 1000 1000 0%float in
  exists r log r' log',
    NewResult E Fixture.profile i 500 500 [] = (Some (inl r), log)
    /\ Width r < img_Width i /\ Height r < img_Height i
    /\ shrank r = true
    /\ apply_steps E Crop_upright [DoResize 500 500] r log = (Some (r', None), log')
    /\ shrank r' = false.
Proof.
  intros E i. eexists. eexists. eexists. eexists.
  split; [vm_compute; reflexivity|].
  split; [simpl; lia|]. split; [simpl; lia|].
  split; [reflexivity|].
  split; [vm_compute; reflexivity|].
  reflexivity.
Qed.

(** ** The request grammar *)

Import Handler.

Section Splitting.

Variable sep : ascii.

Lemma split_on_nonempty (s : string) : split_on sep s <> [].
Proof.
  destruct s as [|c rest]; simpl; [discriminate|].
  destruct (Ascii.eqb c sep); [discriminate|].
  destruct (split_on sep rest); discriminate.
Qed.

Lemma split_on_app (s t : string) :
  avoids sep s = true ->
  split_on sep (s ++ t) =
  match split_on sep t with
  | seg :: segs => (s ++ seg)%string :: segs
  | [] => [s]
  end.
Proof.
  induction s as [|c rest IH]; simpl; intros Hs.
  - pose proof (split_on_nonempty t). destruct (split_on sep t); congruence.
  - apply andb_true_iff in Hs. destruct Hs as [Hc Hrest].
    apply negb_true_iff in Hc. rewrite Hc, (IH Hrest).
    pose proof (split_on_nonempty t). destruct (split_on sep t); congruence.
Qed.

Lemma split_on_avoids (s : string) :
  avoids sep s = true -> split_on sep s = [s].
Proof.
  induction s as [|c rest IH]; simpl; intros Hs; [reflexivity|].
  apply andb_true_iff in Hs. destruct Hs as [Hc Hrest].
  apply negb_true_iff in Hc. rewrite Hc, (IH Hrest). reflexivity.
Qed.

Lemma avoids_app (s t : string) :
  avoids sep (s ++ t) = avoids sep s && avoids sep t.
Proof.
  induction s as [|c rest IH]; simpl; [reflexivity|].
  rewrite IH. apply andb_assoc.
Qed.

Lemma digits_avoid (s : string) :
  digit_value sep = None ->
  forall acc v, parse_digits acc s = Some v -> avoids sep s = true.
Proof.
  intros Hsep. induction s as [|c rest IH]; simpl; intros acc v Hv; [reflexivity|].
  destruct (digit_value c) as [d|] eqn:Hd; [|discriminate].
  rewrite (IH _ _ Hv), andb_true_r.
  destruct (Ascii.eqb_spec c sep) as [->|]; [congruence|reflexivity].
Qed.

End Splitting.

Lemma decimal_avoids (sep : ascii) (s : string) (v : Z) :
  digit_value sep = None -> parse_decimal s = Some v -> avoids sep s = true.
Proof.
  intros Hsep Hv. destruct s as [|c rest]; [discriminate|].
  apply (digits_avoid sep (String c rest) Hsep 0 v Hv).
Qed.

Lemma append_empty (s : string) : (s ++ "")%string = s.
Proof.
  induction s as [|c rest IH]; simpl; [reflexivity|]. rewrite IH. reflexivity.
Qed.

Lemma parse_operations_refuses (segs : list string) (seg : string) :
  In seg segs -> parse_operation seg = None -> parse_operations segs = None.
Proof.
  induction segs as [|s rest IH]; simpl; intros Hin Hseg; [contradiction|].
  destruct Hin as [->|Hin].
  - rewrite Hseg. reflexivity.
  - rewrite (IH Hin Hseg). destruct (parse_operation s); reflexivity.
Qed.

Lemma parse_operations_accepts (segs : list string) :
  (forall seg, In seg segs -> exists op, parse_operation seg = Some op) ->
  exists plan, parse_operations segs = Some plan /\ List.length plan = List.length segs.
Proof.
  induction segs as [|s rest IH]; simpl; intros Hall.
  - exists []. split; reflexivity.
  - destruct (Hall s (or_introl eq_refl)) as [op Hop].
    destruct IH as (plan & Hplan & Hlen); [intros; apply Hall; right; assumption|].
    exists (op :: plan). rewrite Hop, Hplan. simpl. split; congruence.
Qed.

(** The parser agrees with every expectation of [image-handler_test.go]:
    it refuses exactly the requests for which the tests expect status 400. *)
Lemma parser_meets_tests :
  forallb expectation_met (TestSuccess ++ TestResponseErrors ++ TestParameterValidation) = true.
Proof. vm_compute. reflexivity. Qed.

(** C7. A plan with a segment, scale, crop or preview, one of whose
    dimensions is 0, below 16 or above 2048 is refused with [BadRequest].
    Dimensions within [16, 2048] are never the reason of a refusal: when
    every segment is well formed with both dimensions in that range, every
    segment becomes an operation, and the plan is refused only for being
    empty or for holding more than one scale-family operation. *)
Theorem parsePlan_dimension_range (suffix : string) :
  (forall seg k w h,
     In seg (segments suffix) -> lex_segment seg = Some (k, w, h) ->
     w = 0 \/ w < 16 \/ 2048 < w \/ h = 0 \/ h < 16 \/ 2048 < h ->
     parsePlan suffix = BadRequest)
  /\ ((forall seg, In seg (segments suffix) ->
         exists k w h, lex_segment seg = Some (k, w, h)
                       /\ 16 <= w <= 2048 /\ 16 <= h <= 2048) ->
      exists plan,
        parse_operations (segments suffix) = Some plan
        /\ List.length plan = List.length (segments suffix)
        /\ (parsePlan suffix = BadRequest <->
            plan = [] \/ (1 < List.length (filter scale_family plan))%nat)
        /\ (parsePlan suffix <> BadRequest -> parsePlan suffix = Success plan)).
Proof.
  split.
  - intros seg k w h Hin Hlex Hout.
    unfold parsePlan.
    rewrite (parse_operations_refuses _ seg Hin); [reflexivity|].
    unfold parse_operation. rewrite Hlex.
    replace (dimension_ok w && dimension_ok h) with false; [reflexivity|].
    symmetry. apply andb_false_iff.
    unfold dimension_ok, min_dimension, max_dimension.
    rewrite !andb_false_iff, !Z.leb_gt. lia.
  - intros Hall.
    destruct (parse_operations_accepts (segments suffix)) as (plan & Hplan & Hlen).
    { intros seg Hin. destruct (Hall seg Hin) as (k & w & h & Hlex & Hw & Hh).
      exists (operation_of k w h). unfold parse_operation. rewrite Hlex.
      replace (dimension_ok w && dimension_ok h) with true; [reflexivity|].
      symmetry. unfold dimension_ok, min_dimension, max_dimension.
      rewrite !andb_true_iff, !Z.leb_le. lia. }
    exists plan. split; [exact Hplan|]. split; [exact Hlen|].
    unfold parsePlan. rewrite Hplan.
    destruct plan as [|op ops].
    + split; [|congruence]. split; auto.
    + destruct (Nat.leb_spec (List.length (filter scale_family (op :: ops))) 1) as [Hle|Hgt].
      * split; [|reflexivity]. split; [discriminate|].
        intros [Hnil|Hmany]; [discriminate|lia].
      * split; [|congruence]. split; auto.
Qed.

(** The theorem above on [=c200x100=s16x2048] and on [=c0x10]. *)
Lemma parsePlan_dimension_range_witness :
  parsePlan "=c200x100=s16x2048" = Success [Handler.Crop 200 100; Scale 16 2048]
  /\ parsePlan "=c0x10" = BadRequest.
Proof.
  split.
  - destruct (parsePlan_dimension_range "=c200x100=s16x2048") as [_ Hin].
    destruct Hin as (plan & Hplan & _ & _ & Hok).
    + intros seg [<-|[<-|[]]].
      * exists KCrop, 200, 100. split; [reflexivity|lia].
      * exists KScale, 16, 2048. split; [reflexivity|lia].
    + vm_compute in Hplan. inversion Hplan; subst plan.
      apply Hok. vm_compute. discriminate.
  - destruct (parsePlan_dimension_range "=c0x10") as [Hout _].
    apply (Hout "c0x10" KCrop 0 10); [left; reflexivity | reflexivity | lia].
Defined.

(** C2, as the tests have it.  The preview flag comes first: a segment [ps]
    followed by decimal dimensions within [16, 2048] is accepted and gives
    the one-operation plan [PreviewScale], while a segment that starts with
    [sp] is refused with [BadRequest] whatever follows. *)
Theorem preview_flag_is_a_prefix (ws hs : string) (w h : Z) :
  parse_decimal ws = Some w -> parse_decimal hs = Some h ->
  16 <= w <= 2048 -> 16 <= h <= 2048 ->
  parsePlan ("=ps" ++ ws ++ "x" ++ hs) = Success [PreviewScale w h]
  /\ forall rest, parsePlan ("=sp" ++ rest) = BadRequest.
Proof.
  intros Hws Hhs Hw Hh. split.
  - assert (Havoid : forall sep, digit_value sep = None ->
              avoids sep ws = true /\ avoids sep hs = true).
    { intros sep Hsep. split; eapply decimal_avoids; eauto. }
    destruct (Havoid "="%char eq_refl) as [Hws_eq Hhs_eq].
    destruct (Havoid "x"%char eq_refl) as [Hws_x Hhs_x].
    unfold parsePlan, segments. simpl.
    rewrite split_on_avoids
      by (rewrite avoids_app; simpl; rewrite Hws_eq, Hhs_eq; reflexivity).
    simpl. unfold parse_operation, lex_segment. simpl.
    rewrite (split_on_app "x"%char ws _ Hws_x). simpl.
    rewrite (split_on_avoids "x"%char hs Hhs_x), append_empty.
    rewrite Hws, Hhs.
    replace (dimension_ok w && dimension_ok h) with true; [reflexivity|].
    symmetry. unfold dimension_ok, min_dimension, max_dimension.
    rewrite !andb_true_iff, !Z.leb_le. lia.
  - intros rest. unfold parsePlan, segments. simpl.
    pose proof (split_on_nonempty "="%char rest) as Hne.
    destruct (split_on "="%char rest) as [|seg segs]; [congruence|].
    simpl. unfold parse_operation at 1, lex_segment. simpl.
    destruct (split_on "x"%char seg) as [|a [|b [|c l]]]; reflexivity.
Qed.

(** The theorem above on [=ps100x100], the request of [TestSuccess]. *)
Lemma preview_flag_is_a_prefix_witness :
  (parse_decimal "100" = Some 100 /\ 16 <= 100 <= 2048)
  /\ parsePlan "=ps100x100" = Success [PreviewScale 100 100]
  /\ parsePlan "=sp100x100" = BadRequest.
Proof.
  assert (Hd : parse_decimal "100" = Some 100) by reflexivity.
  assert (Hr : 16 <= 100 <= 2048) by lia.
  destruct (preview_flag_is_a_prefix "100" "100" 100 100 Hd Hd Hr Hr) as [Hps Hsp].
  split; [exact (conj Hd Hr)|].
  split; [exact Hps | exact (Hsp "100x100")].
Defined.

(** C2 as stated fails: [=sp100x100] and the [=sp16x16] of
    [TestParameterValidation] are refused with [BadRequest], and the test
    expects status 400 for the latter. *)
Lemma preview_sp_counterexample :
  parsePlan "=sp100x100" = BadRequest
  /\ parsePlan (suffix_of "watermelon.jpg=sp16x16") = BadRequest
  /\ In ("watermelon.jpg=sp16x16", StatusBadRequest) TestParameterValidation
  /\ In ("watermelon.jpg=ps100x100", StatusOK) TestSuccess.
Proof.
  split; [reflexivity|]. split; [reflexivity|].
  split; simpl; auto.
Qed.

(** * Further properties of the pipeline *)

Import Imager.

Lemma releases_app (a b : MagickWand) :
  releases (a ++ b) = (releases a + releases b)%nat.
Proof.
  unfold releases. rewrite filter_app, length_app. reflexivity.
Qed.

Lemma releases_snoc (l : MagickWand) (c : Call) :
  releases (l ++ [c]) = if is_Destroy c then S (releases l) else releases l.
Proof.
  rewrite releases_app. unfold releases. simpl.
  destruct (is_Destroy c); simpl; lia.
Qed.

Lemma unsharp_calls_app (a b : MagickWand) :
  unsharp_calls (a ++ b) = unsharp_calls a ++ unsharp_calls b.
Proof.
  unfold unsharp_calls. apply filter_app.
Qed.

(** ** The constructor *)

Ltac unfold_NewResult :=
  unfold NewResult, normalizeColor, applyColorProfile, Close, NewMagickWand;
  run_monad.

(** A result handed back by [NewResult] is live: it owns the wand and
    points at the image it was built from. *)
Lemma NewResult_live (E : Engine) (reference : string) (i : Imager)
    (width height : Z) (log0 : MagickWand) (r : Result) (log : MagickWand) :
  NewResult E reference i width height log0 = (Some (inl r), log) ->
  wand r = Some wand_ptr /\ img r = Some i /\ Orientation r = img_Orientation i
  /\ releases log = 0%nat.
Proof.
  unfold_NewResult.
  repeat case_step; intros Hrun; inversion Hrun; subst; simpl;
    repeat split; reflexivity.
Qed.

(** X1. A construction that succeeds hands back a live result for the image
    it was asked for: the working dimensions are the width and height the
    engine reported right after colour normalisation, taken through
    [Orientation.Dimensions]; [shrank] is set exactly when both are below
    the nominal dimensions of the source; and the wand has not been
    released.  Nothing follows the two size queries except the blur. *)
Theorem NewResult_success (E : Engine) (reference : string) (i : Imager)
    (width height : Z) (log0 : MagickWand) (r : Result) (log : MagickWand) :
  NewResult E reference i width height log0 = (Some (inl r), log) ->
  wand r = Some wand_ptr /\ img r = Some i /\ Orientation r = img_Orientation i
  /\ shrank r = (Width r <? img_Width i) && (Height r <? img_Height i)
  /\ releases log = 0%nat
  /\ exists pre,
       (Width r, Height r) =
         Dimensions (img_Orientation i)
           (imageWidth E pre) (imageHeight E (pre ++ [GetImageWidth]))
       /\ (log = pre ++ [GetImageWidth; GetImageHeight]
           \/ exists sigma,
                log = pre ++ [GetImageWidth; GetImageHeight;
                              GaussianBlurImage 0%float sigma]).
Proof.
  unfold_NewResult.
  repeat case_step; intros Hrun; inversion Hrun; subst; simpl;
    rewrite ?Heqb0, ?Heqb1, ?Heqb2, ?Heqb3, ?Heqb4;
    (split; [reflexivity|]); (split; [reflexivity|]); (split; [reflexivity|]);
    (split; [try reflexivity; symmetry; assumption|]); (split; [reflexivity|]);
    match goal with
    | |- exists pre, _ /\ (?l = _ \/ _) =>
        first
          [ exists (removelast (removelast l)); simpl;
            split; [symmetry; assumption | left; reflexivity]
          | exists (removelast (removelast (removelast l))); simpl;
            split; [symmetry; assumption | right; eexists; reflexivity] ]
    end.
Qed.

(** The theorem above on a 1000 by 1000 source decoded at 500 by 500. *)
Lemma NewResult_success_witness :
  let E := Fixture.engine Fixture.never "" COLORSPACE_SRGB 500 500 in
  let i := Fixture.imager 1000 1000 0%float in
  exists r log,
    NewResult E Fixture.profile i 500 500 [] = (Some (inl r), log)
    /\ img r = Some i /\ shrank r = (Width r <? 1000) && (Height r <? 1000)
    /\ releases log = 0%nat.
Proof.
  intros E i. eexists. eexists.
  split; [vm_compute; reflexivity|].
  match goal with
  | |- img ?r = _ /\ _ =>
      destruct (NewResult_success E Fixture.profile i 500 500 [] r _ eq_refl)
        as (_ & Himg & _ & Hshrank & Hrel & _)
  end.
  split; [exact Himg|]. split; [exact Hshrank | exact Hrel].
Defined.

(** X2. The decoder size hint.  [NewResult] sets the [jpeg:size] option
    exactly when both hinted dimensions, taken through
    [Orientation.Dimensions], are above zero; the option is then the first
    call on the wand, is set once, and reads [WxH] in decimal.  Without a
    hint the first call is the decoding of the blob. *)
Theorem NewResult_size_hint (E : Engine) (reference : string) (i : Imager)
    (width height : Z) (log0 : MagickWand) :
  let '(w, h) := Dimensions (img_Orientation i) width height in
  let log := snd (NewResult E reference i width height log0) in
  if (0 <? w) && (0 <? h)
  then exists rest,
         log = SetOption "jpeg:size" (sprint_uint w ++ "x" ++ sprint_uint h)%string :: rest
         /\ forall key value, ~ In (SetOption key value) rest
  else (forall key value, ~ In (SetOption key value) log)
       /\ exists rest, log = ReadImageBlob (blob i) :: rest.
Proof.
  destruct (Dimensions (img_Orientation i) width height) as [w h] eqn:Hdim.
  unfold_NewResult. rewrite Hdim.
  destruct ((0 <? w) && (0 <? h)) eqn:Hhint; simpl;
    repeat case_step;
    try (eexists; split; [reflexivity|]);
    try (split; [|eexists; reflexivity]);
    intros key value Hin; simpl in Hin;
    repeat (destruct Hin as [Hin|Hin]; [discriminate|]); exact Hin.
Qed.

(** X3. An error returned by [NewResult] is the error of the last engine
    call it made: one of the six calls it checks (size option, decoding,
    page reset, colorspace marking, colorspace transformation, blur).  For
    the first five the wand is then released and nothing else is called;
    for the blur the failed call is the last one on the wand, which is not
    released.  A failed profile application is never what the constructor
    returns. *)
Theorem NewResult_error_origin (E : Engine) (reference : string) (i : Imager)
    (width height : Z) (log0 : MagickWand) (e : error) (log : MagickWand) :
  NewResult E reference i width height log0 = (Some (inr e), log) ->
  exists pre c,
    failure E pre c = Some e
    /\ checked_by_NewResult c = true
    /\ ((is_blur c = false /\ log = pre ++ [c; Destroy] /\ releases log = 1%nat)
        \/ (is_blur c = true /\ log = pre ++ [c] /\ releases log = 0%nat)).
Proof.
  unfold_NewResult.
  repeat case_step; intros Hrun; inversion Hrun; subst;
    match goal with
    | |- exists pre c, _ /\ _ /\ ((_ /\ ?l = _ /\ _) \/ _) =>
        first
          [ exists (removelast (removelast l)), (last (removelast l) Destroy); simpl;
            split; [assumption|]; split; [reflexivity|];
            left; split; [reflexivity|]; split; reflexivity
          | exists (removelast l), (last l Destroy); simpl;
            split; [assumption|]; split; [reflexivity|];
            right; split; [reflexivity|]; split; reflexivity ]
    end.
Qed.

(** The theorem above on an engine that cannot decode the blob, where the
    wand is released once, and on one whose blur fails, where it is not. *)
Lemma NewResult_error_origin_witness :
  let E := Fixture.engine Fixture.always "" COLORSPACE_SRGB 0 0 in
  let B := Fixture.engine Fixture.blur_fails "" COLORSPACE_SRGB 250 250 in
  let i := Fixture.imager 1000 1000 1%float in
  (exists e log,
     NewResult E Fixture.profile i 0 0 [] = (Some (inr e), log)
     /\ releases log = 1%nat)
  /\ (exists e log,
       NewResult B Fixture.profile i 100 100 [] = (Some (inr e), log)
       /\ releases log = 0%nat).
Proof.
  intros E B i. split.
  - eexists. eexists. split; [vm_compute; reflexivity|].
    destruct (NewResult_error_origin E Fixture.profile i 0 0 [] _ _ eq_refl)
      as (pre & c & _ & _ & [(_ & _ & Hr) | (_ & _ & Hr)]);
      [exact Hr | vm_compute in Hr; discriminate Hr].
  - eexists. eexists. split; [vm_compute; reflexivity|].
    destruct (NewResult_error_origin B Fixture.profile i 100 100 [] _ _ eq_refl)
      as (pre & c & _ & _ & [(_ & _ & Hr) | (_ & _ & Hr)]);
      [vm_compute in Hr; discriminate Hr | exact Hr].
Defined.

(** ** Encoding *)

(** [compress] on a live result, call by call. *)
Lemma compress_run (E : Engine) (r : Result) (format : string)
    (quality : Z) (interlace : InterlaceType) (log : MagickWand) :
  wand r <> None ->
  let c1 := SetImageFormat format in
  let c2 := SetImageCompressionQuality quality in
  let c3 := SetInterlaceScheme interlace in
  compress E r format quality interlace log =
  match failure E log c1 with
  | Some e => (Some (inr e), log ++ [c1])
  | None =>
    match failure E (log ++ [c1]) c2 with
    | Some e => (Some (inr e), log ++ [c1; c2])
    | None =>
      match failure E (log ++ [c1; c2]) c3 with
      | Some e => (Some (inr e), log ++ [c1; c2; c3])
      | None => (Some (inl (imageBlob E (log ++ [c1; c2; c3]))),
                 log ++ [c1; c2; c3; GetImageBlob])
      end
    end
  end.
Proof.
  intros Hwand c1 c2 c3. unfold compress. run_monad.
  destruct (wand r); [clear Hwand|congruence].
  fold c1 c2 c3.
  destruct (failure E log c1); [reflexivity|].
  replace ((log ++ [c1]) ++ [c2]) with (log ++ [c1; c2])
    by (rewrite <- app_assoc; reflexivity).
  destruct (failure E (log ++ [c1]) c2); [reflexivity|].
  replace ((log ++ [c1; c2]) ++ [c3]) with (log ++ [c1; c2; c3])
    by (rewrite <- app_assoc; reflexivity).
  destruct (failure E (log ++ [c1; c2]) c3); [reflexivity|].
  rewrite <- app_assoc. reflexivity.
Qed.

(** X4. [compress] encodes only after the engine accepted format, quality
    and interlace scheme, in this order: bytes come back with exactly these
    three settings and the blob query on the wand, and they are the
    engine's blob.  An error is the refusal of the last setting tried; the
    blob is then not asked for. *)
Theorem compress_encodes_last (E : Engine) (r : Result) (format : string)
    (quality : Z) (interlace : InterlaceType) (log : MagickWand) :
  wand r <> None ->
  let settings := [SetImageFormat format; SetImageCompressionQuality quality;
                   SetInterlaceScheme interlace] in
  (forall b log',
     compress E r format quality interlace log = (Some (inl b), log') ->
     log' = log ++ settings ++ [GetImageBlob]
     /\ b = imageBlob E (log ++ settings)
     /\ forall n c, nth_error settings n = Some c ->
                    failure E (log ++ firstn n settings) c = None)
  /\ (forall e log',
      compress E r format quality interlace log = (Some (inr e), log') ->
      exists n c,
        (n < 3)%nat /\ log' = log ++ firstn n settings ++ [c]
        /\ nth_error settings n = Some c
        /\ failure E (log ++ firstn n settings) c = Some e).
Proof.
  intros Hwand settings. subst settings.
  rewrite (compress_run E r format quality interlace log Hwand).
  split.
  - intros b log' Hrun.
    destruct (failure E log _) eqn:H1; [discriminate|].
    destruct (failure E (log ++ [_]) _) eqn:H2; [discriminate|].
    destruct (failure E (log ++ [_; _]) _) eqn:H3; [discriminate|].
    inversion Hrun. split; [reflexivity|]. split; [reflexivity|].
    intros n c Hn.
    destruct n as [|[|[|n]]]; simpl in Hn; try (destruct n; discriminate);
      inversion Hn; subst; simpl; rewrite ?app_nil_r; assumption.
  - intros e log' Hrun.
    destruct (failure E log _) eqn:H1.
    { inversion Hrun; subst. exists 0%nat, (SetImageFormat format). simpl.
      rewrite app_nil_r. repeat split; try reflexivity; try lia; assumption. }
    destruct (failure E (log ++ [_]) _) eqn:H2.
    { inversion Hrun; subst. exists 1%nat, (SetImageCompressionQuality quality). simpl.
      repeat split; try reflexivity; try lia; assumption. }
    destruct (failure E (log ++ [_; _]) _) eqn:H3; [|discriminate].
    inversion Hrun; subst. exists 2%nat, (SetInterlaceScheme interlace). simpl.
    repeat split; try reflexivity; try lia; assumption.
Qed.

(** The theorem above on an engine that accepts everything. *)
Lemma compress_encodes_last_witness :
  let E := Fixture.engine Fixture.never "" COLORSPACE_SRGB 10 10 in
  let r := Fixture.result 10 10 false in
  wand r <> None
  /\ exists b log',
       compress E r "PNG" 95 INTERLACE_LINE [] = (Some (inl b), log')
       /\ log' = [SetImageFormat "PNG"; SetImageCompressionQuality 95;
                  SetInterlaceScheme INTERLACE_LINE; GetImageBlob]
       /\ b = [].
Proof.
  intros E r.
  assert (Hwand : wand r <> None) by discriminate.
  split; [exact Hwand|].
  eexists. eexists. split; [vm_compute; reflexivity|].
  destruct (compress_encodes_last E r "PNG" 95 INTERLACE_LINE [] Hwand) as [Hok _].
  destruct (Hok _ _ eq_refl) as (Hlog & Hb & _).
  split; [exact Hlog | exact Hb].
Defined.

(** Unfolding of [Get] on a live result. *)
Ltac unfold_Get :=
  unfold Get, compress, wants_sharpen, Close; run_monad.

(** What the orientation fix leaves on the wand, named. *)
Ltac name_fix Hfix :=
  match goal with
  | H : ?F ?o ?w = (_, ?w') |- _ =>
      lazymatch type of F with
      | FixFn =>
          pose proof (Hfix o w) as Hfixed; rewrite H in Hfixed; simpl in Hfixed;
          rewrite ?releases_snoc in Hfixed; simpl in Hfixed
      end
  end.

(** [Get] on a live result: the result comes back as it was and nothing is
    released, except when [StripImage] fails: then the result is closed. *)
Lemma Get_releases (E : Engine) (Orientation_Fix : FixFn) (r : Result) (i : Imager)
    (log : MagickWand) :
  wand r <> None -> img r = Some i ->
  (forall o w, releases (snd (Orientation_Fix o w)) = releases w) ->
  match Get E Orientation_Fix r log with
  | (Some (r', inl _), log') => r' = r /\ releases log' = releases log
  | (Some (r', inr e), log') =>
      (r' = r /\ releases log' = releases log)
      \/ (r' = zero_Result /\ releases log' = S (releases log)
          /\ exists pre, log' = pre ++ [StripImage; Destroy]
                         /\ failure E pre StripImage = Some e)
  | (None, _) => False
  end.
Proof.
  intros Hwand Himg Hfix. unfold_Get. rewrite Himg.
  destruct (wand r) as [p|]; [clear Hwand|congruence]. simpl.
  repeat case_step; try name_fix Hfix;
    rewrite ?releases_snoc; simpl; rewrite ?Hfixed;
    try (split; reflexivity);
    try (left; split; reflexivity);
    try (right; split; [reflexivity|]; split; [reflexivity|];
         eexists; split; [rewrite <- app_assoc; reflexivity | assumption]).
Qed.

(** Every outcome of [Get] on a live result, with the call that failed. *)
Lemma Get_outcome (E : Engine) (Orientation_Fix : FixFn) (r : Result) (i : Imager)
    (log : MagickWand) :
  wand r <> None -> img r = Some i ->
  (forall o w, releases (snd (Orientation_Fix o w)) = releases w) ->
  match Get E Orientation_Fix r log with
  | (Some (r', inl _), log') => r' = r /\ releases log' = releases log
  | (Some (r', inr e), log') =>
      (r' = r /\ releases log' = releases log
       /\ ((exists pre c, log' = pre ++ [c] /\ failure E pre c = Some e
                          /\ c <> StripImage)
           \/ (exists w, Orientation_Fix (Orientation r) w = (Some e, log'))))
      \/ (r' = zero_Result /\ releases log' = S (releases log)
          /\ exists pre, log' = pre ++ [StripImage; Destroy]
                         /\ failure E pre StripImage = Some e)
  | (None, _) => False
  end.
Proof.
  intros Hwand Himg Hfix. unfold_Get. rewrite Himg.
  destruct (wand r) as [p|]; [clear Hwand|congruence]. simpl.
  repeat case_step; try name_fix Hfix;
    rewrite ?releases_snoc; simpl; rewrite ?Hfixed;
    try (split; reflexivity);
    try (left; split; [reflexivity|]; split; [reflexivity|];
         left; eexists; eexists;
         split; [reflexivity|]; split; [assumption|discriminate]);
    try (left; split; [reflexivity|]; split; [reflexivity|];
         right; eexists; eassumption);
    try (right; split; [reflexivity|]; split; [reflexivity|];
         eexists; split; [rewrite <- app_assoc; reflexivity | assumption]).
Qed.

(** X5. [Get] on a live result never panics and never releases the wand
    when it succeeds, handing the result back as it found it.  When it
    returns an error, the result is closed (the wand released once and
    the result zeroed) exactly when the failed call is [StripImage]; after
    any other failed engine call, and after a failed orientation fix,
    result and wand are left as they were, for the caller to close.  The
    orientation fix is assumed not to release the wand. *)
Theorem Get_closes_only_on_strip_failure (E : Engine) (Orientation_Fix : FixFn)
    (r : Result) (i : Imager) (log : MagickWand) :
  wand r <> None -> img r = Some i ->
  (forall o w, releases (snd (Orientation_Fix o w)) = releases w) ->
  (forall r' b log',
     Get E Orientation_Fix r log = (Some (r', inl b), log') ->
     r' = r /\ releases log' = releases log)
  /\ (forall r' e log',
      Get E Orientation_Fix r log = (Some (r', inr e), log') ->
      (r' = r /\ releases log' = releases log
       /\ ((exists pre c, log' = pre ++ [c] /\ failure E pre c = Some e
                          /\ c <> StripImage)
           \/ (exists w, Orientation_Fix (Orientation r) w = (Some e, log'))))
      \/ (r' = zero_Result /\ releases log' = S (releases log)
          /\ exists pre, log' = pre ++ [StripImage; Destroy]
                         /\ failure E pre StripImage = Some e))
  /\ fst (Get E Orientation_Fix r log) <> None.
Proof.
  intros Hwand Himg Hfix.
  pose proof (Get_outcome E Orientation_Fix r i log Hwand Himg Hfix) as H.
  destruct (Get E Orientation_Fix r log) as [[[r0 [b0|e0]]|] log0]; simpl.
  - split; [|split; [|discriminate]].
    + intros r' b log' Heq. inversion Heq; subst. exact H.
    + intros r' e log' Heq. discriminate.
  - split; [|split; [|discriminate]].
    + intros r' b log' Heq. discriminate.
    + intros r' e log' Heq. inversion Heq; subst. exact H.
  - contradiction.
Qed.

(** The theorem above on an engine whose [StripImage] fails, where the
    result comes back closed and the wand released, and on one whose
    [SetImageDepth] fails, where the result comes back as it was. *)
Lemma Get_closes_only_on_strip_failure_witness :
  let E := Fixture.engine Fixture.strip_fails "" COLORSPACE_SRGB 100 100 in
  let F := Fixture.engine Fixture.always "" COLORSPACE_SRGB 100 100 in
  let r := Fixture.result 100 100 false in
  (wand r <> None /\ img r = Some (Fixture.imager 100 100 0%float)
   /\ forall o w, releases (snd (Fix_upright o w)) = releases w)
  /\ (exists r' e log',
       Get E Fix_upright r [] = (Some (r', inr e), log')
       /\ r' = zero_Result /\ releases log' = 1%nat
       /\ exists pre, log' = pre ++ [StripImage; Destroy])
  /\ (exists r' e log',
       Get F Fix_upright r [] = (Some (r', inr e), log')
       /\ r' = r /\ releases log' = 0%nat).
Proof.
  intros E F r.
  assert (Hwand : wand r <> None) by discriminate.
  assert (Himg : img r = Some (Fixture.imager 100 100 0%float)) by reflexivity.
  assert (Hfix : forall o w, releases (snd (Fix_upright o w)) = releases w)
    by (intros; reflexivity).
  split; [exact (conj Hwand (conj Himg Hfix))|].
  split.
  - destruct (Get_closes_only_on_strip_failure E Fix_upright r _ [] Hwand Himg Hfix)
      as (_ & Herr & _).
    eexists. eexists. eexists. split; [vm_compute; reflexivity|].
    destruct (Herr _ _ _ eq_refl) as [(Hsame & _) | (Hzero & Hrel & pre & Hlog & _)].
    + vm_compute in Hsame. discriminate Hsame.
    + split; [exact Hzero|]. split; [exact Hrel|]. exists pre. exact Hlog.
  - destruct (Get_closes_only_on_strip_failure F Fix_upright r _ [] Hwand Himg Hfix)
      as (_ & Herr & _).
    eexists. eexists. eexists. split; [vm_compute; reflexivity|].
    destruct (Herr _ _ _ eq_refl) as [(Hsame & Hrel & _) | (Hzero & _)].
    + split; [exact Hsame | exact Hrel].
    + vm_compute in Hzero. discriminate Hzero.
Defined.

Lemma unsharp_calls_snoc (l : MagickWand) (c : Call) :
  unsharp_calls (l ++ [c]) = unsharp_calls l ++ (if is_unsharp c then [c] else []).
Proof.
  rewrite unsharp_calls_app. unfold unsharp_calls at 2. simpl.
  destruct (is_unsharp c); reflexivity.
Qed.

Ltac name_fix_unsharp Hfix :=
  match goal with
  | H : ?F ?o ?w = (_, ?w') |- _ =>
      lazymatch type of F with
      | FixFn =>
          pose proof (Hfix o w) as Hfixed; rewrite H in Hfixed; simpl in Hfixed;
          rewrite ?unsharp_calls_snoc in Hfixed; simpl in Hfixed;
          rewrite ?app_nil_r in Hfixed
      end
  end.

(** X6. [Get] applies the unsharp mask exactly when the result is flagged
    as shrunk and the image asks for sharpening: one pass with radius 0,
    sigma 0.8, amount 0.6 and threshold 0.05, and none otherwise.  The
    orientation fix is assumed not to sharpen. *)
Theorem Get_sharpens_when_shrunk (E : Engine) (Orientation_Fix : FixFn)
    (r : Result) (i : Imager) (log : MagickWand) :
  wand r <> None -> img r = Some i ->
  (forall o w, unsharp_calls (snd (Orientation_Fix o w)) = unsharp_calls w) ->
  unsharp_calls (snd (Get E Orientation_Fix r log)) =
  unsharp_calls log ++
  (if shrank r && Sharpen i
   then [UnsharpMaskImage 0%float 0.8%float 0.6%float 0.05%float]
   else []).
Proof.
  intros Hwand Himg Hfix. unfold_Get. rewrite Himg.
  destruct (wand r) as [p|]; [clear Hwand|congruence]. simpl.
  repeat case_step; try name_fix_unsharp Hfix;
    rewrite ?unsharp_calls_snoc; simpl; rewrite ?app_nil_r;
    rewrite ?Hfixed; rewrite ?app_nil_r; reflexivity.
Qed.

(** The theorem above on a shrunk 100 by 100 result of an image that asks
    for sharpening. *)
Lemma Get_sharpens_when_shrunk_witness :
  let E := Fixture.engine Fixture.never "" COLORSPACE_SRGB 100 100 in
  let r := Fixture.result 100 100 true in
  (wand r <> None /\ img r = Some (Fixture.imager 100 100 0%float)
   /\ forall o w, unsharp_calls (snd (Fix_upright o w)) = unsharp_calls w)
  /\ unsharp_calls (snd (Get E Fix_upright r []))
     = [UnsharpMaskImage 0%float 0.8%float 0.6%float 0.05%float].
Proof.
  intros E r.
  assert (Hwand : wand r <> None) by discriminate.
  assert (Himg : img r = Some (Fixture.imager 100 100 0%float)) by reflexivity.
  assert (Hfix : forall o w, unsharp_calls (snd (Fix_upright o w)) = unsharp_calls w)
    by (intros; reflexivity).
  split; [exact (conj Hwand (conj Himg Hfix))|].
  rewrite (Get_sharpens_when_shrunk E Fix_upright r _ [] Hwand Himg Hfix).
  reflexivity.
Defined.

(** The wand a left-nested chain of appended calls started from. *)
Ltac chain_base l :=
  lazymatch l with
  | ?a ++ _ => chain_base a
  | _ => l
  end.

Ltac finish_Get :=
  repeat match goal with
         | H : imageAlphaChannel _ _ = _ |- _ => rewrite H; clear H
         end;
  rewrite <- ?app_assoc; simpl; repeat split; reflexivity.

(** X7. What a successful [Get] has done last.  The final calls on the
    wand are, in this order: the stripping of metadata, the alpha query,
    the collapse of transparent pixels if and only if the image has an
    alpha channel, the output format of the image, the quality (the
    configured JPEG quality for format JPEG, 95 for any other format), line
    interlacing, and the encoding, whose blob is what [Get] returns. *)
Theorem Get_success_encoding (E : Engine) (Orientation_Fix : FixFn)
    (r : Result) (i : Imager) (log : MagickWand)
    (r' : Result) (b : list Byte.byte) (log' : MagickWand) :
  wand r <> None -> img r = Some i ->
  Get E Orientation_Fix r log = (Some (r', inl b), log') ->
  exists pre alpha,
    let settings := [SetImageFormat (OutputFormat i);
                     SetImageCompressionQuality (output_quality i);
                     SetInterlaceScheme INTERLACE_LINE] in
    log' = pre ++ StripImage :: GetImageAlphaChannel :: alpha ++ settings ++ [GetImageBlob]
    /\ alpha = (if imageAlphaChannel E (pre ++ [StripImage])
                then [SetImageAlphaChannel ALPHA_CHANNEL_BACKGROUND] else [])
    /\ b = imageBlob E (pre ++ StripImage :: GetImageAlphaChannel :: alpha ++ settings).
Proof.
  intros Hwand Himg. unfold_Get. unfold output_quality. rewrite Himg.
  destruct (wand r) as [p|]; [clear Hwand|congruence]. simpl.
  repeat case_step; intros Hrun; inversion Hrun; subst; clear Hrun;
    match goal with
    | |- exists pre alpha, ?l = _ /\ _ =>
        let m := chain_base l in
        first
          [ exists m, [SetImageAlphaChannel ALPHA_CHANNEL_BACKGROUND]; solve [finish_Get]
          | exists m, (@nil Call); solve [finish_Get]
          | exists (m ++ [NormalizeImage]), [SetImageAlphaChannel ALPHA_CHANNEL_BACKGROUND];
            solve [finish_Get]
          | exists (m ++ [NormalizeImage]), (@nil Call); solve [finish_Get] ]
    end.
Qed.

(** The theorem above on a PNG image without alpha channel. *)
Lemma Get_success_encoding_witness :
  let E := Fixture.engine Fixture.never "" COLORSPACE_SRGB 100 100 in
  let i := {| blob := []; img_Width := 100; img_Height := 100;
              img_Orientation := Normal; BlurFactor := 0%float; Sharpen := false;
              AutoContrast := false; OutputFormat := "PNG"; JpegQuality := 85 |} in
  let r := {| wand := Some wand_ptr; img := Some i; Width := 100; Height := 100;
              Orientation := Normal; shrank := false |} in
  (wand r <> None /\ img r = Some i)
  /\ exists b log',
       Get E Fix_upright r [] = (Some (r, inl b), log')
       /\ exists pre alpha,
            log' = pre ++ StripImage :: GetImageAlphaChannel :: alpha ++
                   [SetImageFormat "PNG"; SetImageCompressionQuality 95;
                    SetInterlaceScheme INTERLACE_LINE] ++ [GetImageBlob]
            /\ alpha = (if imageAlphaChannel E (pre ++ [StripImage])
                        then [SetImageAlphaChannel ALPHA_CHANNEL_BACKGROUND] else [])
            /\ b = imageBlob E (pre ++ StripImage :: GetImageAlphaChannel :: alpha ++
                                [SetImageFormat "PNG"; SetImageCompressionQuality 95;
                                 SetInterlaceScheme INTERLACE_LINE]).
Proof.
  intros E i r.
  assert (Hwand : wand r <> None) by discriminate.
  assert (Himg : img r = Some i) by reflexivity.
  split; [exact (conj Hwand Himg)|].
  eexists. eexists. split; [vm_compute; reflexivity|].
  exact (Get_success_encoding E Fix_upright r i [] r _ _ Hwand Himg eq_refl).
Defined.

(** ** The whole pipeline *)

Lemma Crop_call_not_Destroy (Orientation_Crop : CropFn) (r : Result) (w h : Z) :
  is_Destroy (Crop_call Orientation_Crop r w h) = false.
Proof.
  unfold Crop_call.
  destruct (Orientation_Crop _ _ _ _ _ _ _) as [[[ow oh] ox] oy]. reflexivity.
Qed.

Lemma Resize_call_not_Destroy (r : Result) (w h : Z) :
  is_Destroy (Resize_call r w h) = false.
Proof.
  unfold Resize_call. destruct (Dimensions _ _ _). reflexivity.
Qed.

(** Steps keep the wand, the image and the number of releases. *)
Lemma apply_steps_keep (E : Engine) (Orientation_Crop : CropFn) (steps : list Step) :
  forall r log r' err log',
    apply_steps E Orientation_Crop steps r log = (Some (r', err), log') ->
    wand r' = wand r /\ img r' = img r /\ releases log' = releases log.
Proof.
  induction steps as [|s rest IH]; intros r log r' err log' Hrun.
  - inversion Hrun. repeat split; reflexivity.
  - simpl in Hrun. unfold bind in Hrun.
    destruct s as [w h|w h]; simpl in Hrun.
    + rewrite Resize_run in Hrun. destruct (wand r) eqn:Hwand; [|discriminate].
      destruct (failure E log _).
      * inversion Hrun; subst. rewrite releases_snoc, Resize_call_not_Destroy.
        repeat split; congruence.
      * apply IH in Hrun. simpl in Hrun.
        rewrite releases_snoc, Resize_call_not_Destroy in Hrun.
        destruct Hrun as (Hw & Hi & Hr). repeat split; congruence.
    + rewrite Crop_run in Hrun. destruct (wand r) eqn:Hwand; [|discriminate].
      destruct (failure E log _).
      * inversion Hrun; subst. rewrite releases_snoc, Crop_call_not_Destroy.
        repeat split; congruence.
      * apply IH in Hrun. simpl in Hrun.
        rewrite releases_snoc, Crop_call_not_Destroy in Hrun.
        destruct Hrun as (Hw & Hi & Hr). repeat split; congruence.
Qed.

(** X8. One release per pipeline, made by the caller's [Close].  After a
    construction that succeeded, any sequence of [Resize] and [Crop] calls,
    stopped or not by an error, leaves a result that [Close] releases
    exactly once; and when [Get] then succeeds the wand is still
    unreleased, so that the [Close] after it is the one release of the
    whole run.  The orientation fix is assumed not to release the wand. *)
Theorem pipeline_released_by_Close (E : Engine) (reference : string)
    (Orientation_Crop : CropFn) (Orientation_Fix : FixFn)
    (i : Imager) (width height : Z) (steps : list Step)
    (r0 r1 : Result) (log0 log1 : MagickWand) (err : option error) :
  (forall o w, releases (snd (Orientation_Fix o w)) = releases w) ->
  NewResult E reference i width height [] = (Some (inl r0), log0) ->
  apply_steps E Orientation_Crop steps r0 log0 = (Some (r1, err), log1) ->
  (Close r1 log1 = (Some zero_Result, log1 ++ [Destroy])
   /\ releases (log1 ++ [Destroy]) = 1%nat)
  /\ forall r2 b log2,
       Get E Orientation_Fix r1 log1 = (Some (r2, inl b), log2) ->
       releases log2 = 0%nat
       /\ Close r2 log2 = (Some zero_Result, log2 ++ [Destroy])
       /\ releases (log2 ++ [Destroy]) = 1%nat.
Proof.
  intros Hfix Hnew Hsteps.
  destruct (NewResult_live _ _ _ _ _ _ _ _ Hnew) as (Hw0 & Hi0 & _ & Hr0).
  destruct (apply_steps_keep _ _ _ _ _ _ _ _ Hsteps) as (Hw1 & Hi1 & Hr1).
  rewrite Hw0 in Hw1. rewrite Hi0 in Hi1. rewrite Hr0 in Hr1.
  assert (Hclose : forall r l, wand r = Some wand_ptr ->
                   Close r l = (Some zero_Result, l ++ [Destroy])).
  { intros r l Hw. unfold Close. run_monad. rewrite Hw. reflexivity. }
  split.
  - split; [apply Hclose; exact Hw1|].
    rewrite releases_snoc. simpl. congruence.
  - intros r2 b log2 Hget.
    assert (Hlive : wand r1 <> None) by congruence.
    pose proof (Get_releases E Orientation_Fix r1 i log1 Hlive Hi1 Hfix) as H.
    rewrite Hget in H. destruct H as [-> Hr2].
    split; [congruence|]. split; [apply Hclose; exact Hw1|].
    rewrite releases_snoc. simpl. congruence.
Qed.

(** The theorem above on a 1000 by 1000 source decoded at 500 by 500,
    scaled to 200 by 200 and cropped to 100 by 100. *)
Lemma pipeline_released_by_Close_witness :
  let E := Fixture.engine Fixture.never "" COLORSPACE_SRGB 500 500 in
  let i := Fixture.imager 1000 1000 0%float in
  let steps := [DoResize 200 200; DoCrop 100 100] in
  (forall o w, releases (snd (Fix_upright o w)) = releases w)
  /\ exists r0 log0 r1 log1,
       NewResult E Fixture.profile i 200 200 [] = (Some (inl r0), log0)
       /\ apply_steps E Crop_upright steps r0 log0 = (Some (r1, None), log1)
       /\ Close r1 log1 = (Some zero_Result, log1 ++ [Destroy])
       /\ releases (log1 ++ [Destroy]) = 1%nat.
Proof.
  intros E i steps.
  assert (Hfix : forall o w, releases (snd (Fix_upright o w)) = releases w)
    by (intros; reflexivity).
  split; [exact Hfix|].
  eexists. eexists. eexists. eexists.
  split; [vm_compute; reflexivity|].
  split; [vm_compute; reflexivity|].
  exact (proj1 (pipeline_released_by_Close E Fixture.profile Crop_upright Fix_upright
                  i 200 200 steps _ _ _ _ None Hfix eq_refl eq_refl)).
Defined.

(** ** More on Crop *)

(** X9. For a target no larger than the working size the box that [Crop]
    centres lies inside the working image: the offset is not negative and
    offset plus target does not pass the working dimension.  This holds in
    each axis, before the box goes through [Orientation.Crop]. *)
Theorem Crop_box_inside (current target : Z) :
  fits_int current -> 0 <= target <= current ->
  0 <= center current target /\ center current target + target <= current.
Proof.
  intros Hc Ht.
  rewrite center_quot by (unfold fits_int in *; lia).
  Z.quot_rem_to_equations. lia.
Qed.

(** The theorem above on a width of 640 cropped to 200. *)
Lemma Crop_box_inside_witness :
  (fits_int 640 /\ 0 <= 200 <= 640)
  /\ 0 <= center 640 200 /\ center 640 200 + 200 <= 640.
Proof.
  assert (Hc : fits_int 640) by (unfold fits_int; lia).
  assert (Ht : 0 <= 200 <= 640) by lia.
  split; [exact (conj Hc Ht)|].
  exact (Crop_box_inside 640 200 Hc Ht).
Defined.

(** X10. Cropping to the current working size asks [Orientation.Crop] for
    the whole image, at offset (0, 0), and on success gives back the very
    state it started from. *)
Theorem Crop_to_current_size (E : Engine) (Orientation_Crop : CropFn)
    (r : Result) (log : MagickWand) :
  fits_int (Width r) -> fits_int (Height r) -> wand r <> None ->
  let whole :=
    let '(ow, oh, ox, oy) :=
      Orientation_Crop (Orientation r) (Width r) (Height r) 0 0 (Width r) (Height r)
    in CropImage ow oh ox oy in
  snd (Crop E Orientation_Crop r (Width r) (Height r) log) = log ++ [whole]
  /\ forall r',
       fst (Crop E Orientation_Crop r (Width r) (Height r) log) = Some (r', None) ->
       r' = r.
Proof.
  intros HW HH Hwand whole. subst whole.
  assert (Hzero : forall c, fits_int c -> center c c = 0).
  { intros c Hc. rewrite center_quot by assumption.
    replace (c - c + 1) with 1 by lia. reflexivity. }
  rewrite Crop_run. unfold Crop_call. rewrite !Hzero by assumption.
  destruct (wand r) eqn:Hw; [clear Hwand|congruence].
  destruct (failure E log _); simpl.
  - split; [reflexivity|]. intros r' Heq. discriminate.
  - split; [reflexivity|]. intros r' Heq. inversion Heq.
    clear. destruct r; reflexivity.
Qed.

(** The theorem above on a 640 by 480 state. *)
Lemma Crop_to_current_size_witness :
  let E := Fixture.engine Fixture.never "" COLORSPACE_SRGB 640 480 in
  let r := Fixture.result 640 480 true in
  (fits_int (Width r) /\ fits_int (Height r) /\ wand r <> None)
  /\ snd (Crop E Crop_upright r 640 480 []) = [CropImage 640 480 0 0]
  /\ fst (Crop E Crop_upright r 640 480 []) = Some (r, None).
Proof.
  intros E r.
  assert (HW : fits_int (Width r)) by (unfold fits_int; simpl; lia).
  assert (HH : fits_int (Height r)) by (unfold fits_int; simpl; lia).
  assert (Hwand : wand r <> None) by discriminate.
  split; [exact (conj HW (conj HH Hwand))|].
  destruct (Crop_to_current_size E Crop_upright r [] HW HH Hwand) as [Hlog _].
  split; [exact Hlog | reflexivity].
Defined.
